(** * PDB file utilities: window segmentation and residue renumbering

    A shallow embedding of the two scripts that make up the core of the
    toolbox:

    - [pdb-residue-index-reset.py], which rewrites the residue-number
      field of the ATOM and TER lines of a PDB text file, and
    - [pdb-split-files.py], which walks the chains of a parsed structure
      and saves 9-residue windows through Biopython's [PDBIO].

    Python text is a list of characters, Python integers are [Z], the
    file system touched by the segmenter is a finite map from paths to
    file contents. *)

From Stdlib Require Import ZArith Ascii String DecimalString DecimalZ.
From stdpp Require Import base decidable list strings gmap.

Local Open Scope Z_scope.

(** ** Python text primitives *)

Module Text.

(** Python [str] values as character lists. *)
Abbreviation text := (list ascii).

Definition chars (s : string) : text := list_ascii_of_string s.

(** The line terminator as [readlines] delivers it. *)
Definition newline : ascii := "010"%char.
Definition space : ascii := " "%char.

(** [str(n)] for an integer. *)
Definition str (n : Z) : text := chars (NilEmpty.string_of_int (Z.to_int n)).

(** The characters [str] can produce. *)
Definition numeral_char (c : ascii) : Prop :=
  c ∈ chars "0123456789-".

(** [s.rjust(width)]: pad with blanks on the left, never truncate. *)
Definition rjust (width : nat) (s : text) : text :=
  replicate (width - length s) space ++ s.

(** [s.startswith(prefix)]. *)
Definition startswith (prefix s : text) : bool :=
  bool_decide (take (length prefix) s = prefix).

(** [s.endswith(suffix)]. *)
Definition endswith (suffix s : text) : bool :=
  bool_decide (drop (length s - length suffix) s = suffix).

(** [s[a:b]] for [0 <= a <= b]; Python clips the slice to the text. *)
Definition slice (a b : nat) (s : text) : text := take (b - a) (drop a s).

(** [f.readlines()]: cut after every terminator; a last line without
    terminator is kept as it is. *)
Fixpoint readlines (s : text) : list text :=
  match s with
  | [] => []
  | c :: s' =>
      if bool_decide (c = newline) then [c] :: readlines s'
      else match readlines s' with
           | [] => [[c]]
           | l :: ls => (c :: l) :: ls
           end
  end.

(** The shape of a list of lines as [readlines] returns it: every line
    ends with its terminator and has no other, except that the last one
    may be a non-empty line without terminator. *)
Inductive line_list : list text → Prop :=
  | line_list_nil : line_list []
  | line_list_last body :
      body ≠ [] → newline ∉ body → line_list [body]
  | line_list_cons body rest :
      newline ∉ body → line_list rest →
      line_list ((body ++ [newline]) :: rest).

(** [f.writelines(lines)]. *)
Definition writelines (lines : list text) : text := concat lines.

(** *** Line ends in text mode

    The renumberer opens its file in text mode with [newline] left at
    [None], so the characters the file holds and the characters the
    program sees differ in the line ends. *)
Definition carriage_return : ascii := "013"%char.

(** [open(file, 'r')]: a carriage return followed by a line feed, and a
    carriage return on its own, are handed to the program as one line
    feed. *)
Fixpoint universal_newlines (s : text) : text :=
  match s with
  | [] => []
  | c :: rest =>
      if bool_decide (c = carriage_return) then
        newline ::
          match rest with
          | d :: rest' =>
              if bool_decide (d = newline) then universal_newlines rest'
              else universal_newlines rest
          | [] => []
          end
      else c :: universal_newlines rest
  end.

(** [open(file, 'w')]: every line feed the program writes is stored as
    [os.linesep]. *)
Definition write_newlines (linesep s : text) : text :=
  s ≫= λ c, if bool_decide (c = newline) then linesep else [c].

(** The two values of [os.linesep]: a line feed on POSIX, carriage
    return and line feed on Windows. *)
Definition os_linesep (linesep : text) : Prop :=
  linesep = [newline] ∨ linesep = [carriage_return; newline].

Global Instance os_linesep_dec linesep : Decision (os_linesep linesep).
Proof. unfold os_linesep. apply _. Defined.

End Text.

(** ** The residue renumberer ([pdb-residue-index-reset.py]) *)

Module Renumber.
Import Text.

(** The two loop variables: [current_residue] ([None] before the first
    record line) and [current_residue_number]. *)
Record state := State {
  current_residue : option text;
  current_residue_number : Z
}.

(** [current_residue = None; start_residue = 1;
     current_residue_number = start_residue - 1]. *)
Definition start_residue : Z := 1.
Definition initial : state := State None (start_residue - 1).

(** [line[22:26]]. *)
Definition residue_field (line : text) : text := slice 22 26 line.

(** [line[:22] + str(n).rjust(4) + line[26:]]. *)
Definition rewrite_field (n : Z) (line : text) : text :=
  take 22 line ++ rjust 4 (str n) ++ drop 26 line.

(** The [if line.startswith('ATOM')] block. *)
Definition atom_branch (st : state) (line : text) : state :=
  let residue := residue_field line in
  if bool_decide (Some residue ≠ current_residue st)
  then State (Some residue) (current_residue_number st + 1)
  else st.

(** The [if line.startswith('TER')] block. *)
Definition ter_branch (st : state) (line : text) : state :=
  let residue := residue_field line in
  if bool_decide (Some residue ≠ current_residue st)
  then State (Some residue) (current_residue_number st)
  else st.

(** One iteration of [for i, line in enumerate(lines)]: the state after
    it and the value of [lines[i]]. Both tests look at the line as it was
    read, the two blocks run one after the other. *)
Definition step (st : state) (line : text) : state * text :=
  let '(st1, out1) :=
    if startswith (chars "ATOM") line then
      let st' := atom_branch st line in
      (st', rewrite_field (current_residue_number st') line)
    else (st, line) in
  if startswith (chars "TER") line then
    let st' := ter_branch st1 line in
    (st', rewrite_field (current_residue_number st') line)
  else (st1, out1).

(** The whole loop from a given state: final state and rewritten lines. *)
Fixpoint run (st : state) (lines : list text) : state * list text :=
  match lines with
  | [] => (st, [])
  | line :: rest =>
      let '(st', out) := step st line in
      let '(final, outs) := run st' rest in
      (final, out :: outs)
  end.

Definition renumber_lines (lines : list text) : list text :=
  (run initial lines).2.

(** Value of the counter when the loop ends. *)
Definition final_number (lines : list text) : Z :=
  current_residue_number (run initial lines).1.

(** The body of the file loop on the text of one file:
    [readlines], the loop, [writelines]. The text is the one the
    program holds, between the translation of line ends on reading and
    on writing. *)
Definition renumber_file (content : text) : text :=
  writelines (renumber_lines (readlines content)).

(** The body of the file loop on the characters the file holds:
    [open(pdb_file, 'r')], the text pass, [open(pdb_file, 'w')]. The
    characters are those the file decodes to; where it does not decode,
    [readlines] raises and the file is not opened for writing. *)
Definition renumber_stored (linesep stored : text) : text :=
  write_newlines linesep (renumber_file (universal_newlines stored)).

(** The numbers the loop writes into the ATOM lines, in file order. *)
Fixpoint atom_numbers (st : state) (lines : list text) : list Z :=
  match lines with
  | [] => []
  | line :: rest =>
      let st' := (step st line).1 in
      if startswith (chars "ATOM") line
      then current_residue_number st' :: atom_numbers st' rest
      else atom_numbers st' rest
  end.

(** The residue fields of the ATOM lines, in file order. *)
Definition atom_lines (lines : list text) : list text :=
  filter (λ l, startswith (chars "ATOM") l = true) lines.

Definition atom_fields (lines : list text) : list text :=
  residue_field <$> atom_lines lines.

(** Every TER line met from state [st] on carries the field that is
    current when the loop reaches it. *)
Fixpoint ter_agree (st : state) (lines : list text) : bool :=
  match lines with
  | [] => true
  | line :: rest =>
      (if startswith (chars "TER") line
       then bool_decide (Some (residue_field line) = current_residue st)
       else true)
      && ter_agree (step st line).1 rest
  end.

(** Numbering of a sequence of fields by runs: a new number whenever
    the field differs from the one before it. *)
Fixpoint number_runs (cur : option text) (n : Z) (fields : list text) : list Z :=
  match fields with
  | [] => []
  | f :: rest =>
      let n' := if bool_decide (Some f ≠ cur) then n + 1 else n in
      n' :: number_runs (Some f) n' rest
  end.

(** A record line long enough for the field to lie inside it, before
    the terminator. *)
Definition wide_line (line : text) : Prop :=
  (26 ≤ length line)%nat ∧ newline ∉ take 26 line.

Definition record_line (line : text) : bool :=
  startswith (chars "ATOM") line || startswith (chars "TER") line.

(** All record lines of a file are wide and the counter stays within
    four columns. *)
Definition fixed_width (lines : list text) : Prop :=
  Forall (λ l, record_line l = true → wide_line l) lines
  ∧ final_number lines ≤ 9999.

Global Instance wide_line_dec line : Decision (wide_line line).
Proof. unfold wide_line. apply _. Defined.

Global Instance fixed_width_dec lines : Decision (fixed_width lines).
Proof. unfold fixed_width. apply _. Defined.

(** A second pass over the output is in step with the first pass when
    it has the same counter and, once a record line has been seen, the
    counter's text as its current identifier. *)
Definition in_step (st st2 : state) : Prop :=
  current_residue_number st2 = current_residue_number st
  ∧ (current_residue st = None ∧ current_residue st2 = None
     ∨ current_residue st ≠ None
       ∧ current_residue st2 = Some (rjust 4 (str (current_residue_number st)))).

(** What Python's [int] accepts, on ASCII text: blanks around an
    optional sign and digits, single underscores between digits. *)
Definition is_digit (c : ascii) : bool := bool_decide (c ∈ chars "0123456789").
Definition is_blank (c : ascii) : bool :=
  bool_decide (c ∈ [" "%char; "009"%char; "010"%char; "011"%char; "012"%char;
                    "013"%char; "028"%char; "029"%char; "030"%char; "031"%char]).

Fixpoint lstrip (s : text) : text :=
  match s with
  | c :: rest => if is_blank c then lstrip rest else s
  | [] => []
  end.

Definition strip (s : text) : text := reverse (lstrip (reverse (lstrip s))).

Fixpoint digits_from (s : text) : bool :=
  match s with
  | [] => true
  | c :: rest =>
      if is_digit c then digits_from rest
      else if bool_decide (c = "_"%char) then
        match rest with
        | d :: rest' => is_digit d && digits_from rest'
        | [] => false
        end
      else false
  end.

Definition unsigned_literal (s : text) : bool :=
  match s with
  | c :: rest => is_digit c && digits_from rest
  | [] => false
  end.

Definition int_parseable (s : text) : bool :=
  match strip s with
  | c :: rest =>
      if bool_decide (c = "+"%char ∨ c = "-"%char) then unsigned_literal rest
      else unsigned_literal (c :: rest)
  | [] => false
  end.

End Renumber.

(** ** The structure segmenter ([pdb-split-files.py]) *)

Module Segment.
Import Text.

(** *** The object model handed over by [PDBParser.get_structure]

    A structure lists its models, a model its chains, a chain its
    residues, a residue its atoms, all in file order. A residue
    identifier is the triple (hetero flag, sequence number, insertion
    code). *)
Record Atom := { atom_name : text; atom_payload : text }.
Record Residue := {
  hetflag : text;
  resseq : Z;
  icode : text;
  resname : text;
  atoms : list Atom
}.
Record Chain := { chain_id : text; residues : list Residue }.
Record Model := { model_id : Z; chains : list Chain }.
Abbreviation Structure := (list Model).

Global Instance Atom_eq_dec : EqDecision Atom.
Proof. solve_decision. Defined.
Global Instance Residue_eq_dec : EqDecision Residue.
Proof. solve_decision. Defined.

(** *** [Bio.PDB.Dice.ChainSelector] and [PDBIO.save]

    The script builds [ChainSelector(chain_id, start, start + 8)]; the
    class and [PDBIO] belong to Biopython. Their part that decides which
    records reach the file is modelled after the library: the selector's
    four [accept_*] methods, with [model_id] at its default 0, and the
    nested loops of [PDBIO.save] that consult them. *)
Record ChainSelector := {
  sel_chain_id : text;
  sel_start : Z;
  sel_end : Z
}.

Global Instance ChainSelector_eq_dec : EqDecision ChainSelector.
Proof. solve_decision. Defined.

(** [accept_model]: only model 0. *)
Definition accept_model (select : ChainSelector) (model : Model) : bool :=
  bool_decide (model_id model = 0).

(** [accept_chain]: the chain with the selector's identifier. *)
Definition accept_chain (select : ChainSelector) (chain : Chain) : bool :=
  bool_decide (chain_id chain = sel_chain_id select).

(** [accept_residue]: hetero residues are skipped, then
    [self.start <= resseq <= self.end]. *)
Definition accept_residue (select : ChainSelector) (residue : Residue) : bool :=
  if bool_decide (hetflag residue ≠ chars " ") then false
  else bool_decide (sel_start select ≤ resseq residue ≤ sel_end select).

(** The pattern ["[123 ]*H.*"] matched at the start of an atom name. *)
Fixpoint hydrogen_match (name : text) : bool :=
  match name with
  | [] => false
  | c :: rest =>
      if bool_decide (c = "H"%char) then true
      else if bool_decide (c ∈ chars "123 ") then hydrogen_match rest
      else false
  end.

(** [accept_atom]: hydrogens are left out. *)
Definition accept_atom (select : ChainSelector) (atom : Atom) : bool :=
  negb (hydrogen_match (atom_name atom)).

(** One written atom line: the chain, the residue and the atom it is
    formatted from. *)
Record AtomRecord := {
  rec_chain : text;
  rec_residue : Residue;
  rec_atom : Atom
}.

(** What [io.save(file, select)] puts into the file, record by record. *)
Definition save_records (structure : Structure) (select : ChainSelector)
  : list AtomRecord :=
  model ← filter (λ m, accept_model select m = true) structure;
  chain ← filter (λ c, accept_chain select c = true) (chains model);
  residue ← filter (λ r, accept_residue select r = true) (residues chain);
  atom ← filter (λ a, accept_atom select a = true) (atoms residue);
  [ {| rec_chain := chain_id chain; rec_residue := residue; rec_atom := atom |} ].

(** *** The script *)

(** [range(a, b)]. *)
Definition range (a b : Z) : list Z := seqZ a (b - a).

(** A call [io.save(file_save, selection)]. *)
Definition save_event : Type := text * ChainSelector.

(** The files written so far, by path. *)
Abbreviation files := (gmap text (list AtomRecord)).

Section Script.

(** [os.path.join] is the platform's. *)
Variable os_path_join : text → text → text.

Definition directory : text := chars "C:/Peptide3d/data".

(** The parsed structure of the input file, set with [io.set_structure],
    and the file name without its extension. *)
Variable structure : Structure.
Variable file_prefix : text.

(** [os.path.join(directory, file_prefix + '_' + str(start) + '.pdb')]. *)
Definition file_save (start : Z) : text :=
  os_path_join directory (file_prefix ++ chars "_" ++ str start ++ chars ".pdb").

(** One round of the innermost loop: the selection
    [ChainSelector(chain_id, start, start + 8)], the path, and the call
    [io.save(file_save, selection)]. *)
Definition window (chain_id : text) (start : Z) : save_event :=
  let selection := {| sel_chain_id := chain_id; sel_start := start;
                      sel_end := start + 8 |} in
  (file_save start, selection).

(** The innermost loop, [for count in range(start, start + 8)]. *)
Definition write_window (chain_id : text) (start : Z) : list save_event :=
  (λ count : Z, window chain_id start) <$> range start (start + 8).

(** [for residue in chain.get_residues()]: [start] comes in from
    outside the loop; the result is [start] when the loop is left and the
    saves it made. *)
Fixpoint residue_loop (chain_id : text) (length : Z) (rs : list Residue)
    (start : Z) : Z * list save_event :=
  match rs with
  | [] => (start, [])
  | _ :: rest =>
      let start := start + 1 in
      if bool_decide (start + 8 > length) then (start, [])
      else
        let '(final, evs) := residue_loop chain_id length rest start in
        (final, write_window chain_id start ++ evs)
  end.

(** [for chain in model]. *)
Fixpoint chain_loop (cs : list Chain) (start : Z) : Z * list save_event :=
  match cs with
  | [] => (start, [])
  | chain :: rest =>
      let length := Z.of_nat (length (residues chain)) in
      let '(start1, evs1) :=
        residue_loop (chain_id chain) length (residues chain) start in
      let '(final, evs2) := chain_loop rest start1 in
      (final, evs1 ++ evs2)
  end.

(** [for model in structure]. *)
Fixpoint model_loop (ms : list Model) (start : Z) : Z * list save_event :=
  match ms with
  | [] => (start, [])
  | model :: rest =>
      let '(start1, evs1) := chain_loop (chains model) start in
      let '(final, evs2) := model_loop rest start1 in
      (final, evs1 ++ evs2)
  end.

(** The body of the file loop: [count = start = length = 0] once, then
    the loops over the whole structure. *)
Definition split_file : list save_event := (model_loop structure 0).2.

(** [io.save] on the file system. *)
Definition io_save (fs : files) (ev : save_event) : files :=
  <[ ev.1 := save_records structure ev.2 ]> fs.

Definition run_saves (fs : files) (evs : list save_event) : files :=
  foldl io_save fs evs.

(** The file system after the script has processed the file. *)
Definition split_file_fs (fs : files) : files := run_saves fs split_file.

(** The design that saves every window once: the same loops with the
    save outside any repetition. *)
Definition write_window_once (chain_id : text) (start : Z) : list save_event :=
  [ window chain_id start ].

Fixpoint residue_loop_once (chain_id : text) (length : Z) (rs : list Residue)
    (start : Z) : Z * list save_event :=
  match rs with
  | [] => (start, [])
  | _ :: rest =>
      let start := start + 1 in
      if bool_decide (start + 8 > length) then (start, [])
      else
        let '(final, evs) := residue_loop_once chain_id length rest start in
        (final, write_window_once chain_id start ++ evs)
  end.

Fixpoint chain_loop_once (cs : list Chain) (start : Z) : Z * list save_event :=
  match cs with
  | [] => (start, [])
  | chain :: rest =>
      let length := Z.of_nat (length (residues chain)) in
      let '(start1, evs1) :=
        residue_loop_once (chain_id chain) length (residues chain) start in
      let '(final, evs2) := chain_loop_once rest start1 in
      (final, evs1 ++ evs2)
  end.

Fixpoint model_loop_once (ms : list Model) (start : Z) : Z * list save_event :=
  match ms with
  | [] => (start, [])
  | model :: rest =>
      let '(start1, evs1) := chain_loop_once (chains model) start in
      let '(final, evs2) := model_loop_once rest start1 in
      (final, evs1 ++ evs2)
  end.

Definition split_file_once_fs (fs : files) : files :=
  run_saves fs (model_loop_once structure 0).2.

End Script.

End Segment.

(** ** Sample inputs *)

Module Samples.
Import Text Renumber Segment.

(** An ATOM line and a TER line of residue [ALA], chain [A], with the
    given text in columns 23 to 26. *)
Definition atom_line (field : string) : text :=
  chars "ATOM      1  N   ALA A" ++ chars field
    ++ chars "      11.104   6.134  -6.504  1.00  0.00           N"
    ++ [newline].

Definition ter_line (field : string) : text :=
  chars "TER       2      ALA A" ++ chars field ++ [newline].

(** An ATOM line of chain [B] with other coordinates and an insertion
    code after the residue number. *)
Definition atom_line_b (field : string) : text :=
  chars "ATOM     77  CA  GLY B" ++ chars field
    ++ chars "A      1.000   2.000   3.000  1.00  0.00           C"
    ++ [newline].

(** A TER record with nothing after its name. *)
Definition bare_ter : text := chars "TER" ++ [newline].

(** An ATOM line cut off inside the residue-number field: 24 characters
    and the terminator. *)
Definition cut_atom_line : text :=
  chars "ATOM      1  N   ALA A  " ++ [newline].

(** Residues 5, 5, 5, 9, 9, 12 and the TER record of the last one. *)
Definition chain_5_9_12 : list text :=
  [atom_line "   5"; atom_line "   5"; atom_line "   5";
   atom_line "   9"; atom_line "   9"; atom_line "  12"; ter_line "  12"].

(** A TER record that names a residue other than the one before it. *)
Definition ter_ahead : list text :=
  [atom_line "   5"; ter_line "   6"; atom_line "   6"].

(** [posixpath.join(a, b)]. *)
Definition posix_join (a b : text) : text :=
  if startswith (chars "/") b then b
  else if bool_decide (a = []) || endswith (chars "/") a then a ++ b
  else a ++ chars "/" ++ b.

Definition alpha_carbon : Atom :=
  {| atom_name := chars "CA"; atom_payload := [] |}.

Definition residue_numbered (n : Z) : Residue :=
  {| hetflag := chars " "; resseq := n; icode := chars " ";
     resname := chars "ALA"; atoms := [alpha_carbon] |}.

Definition chain_numbered (id : string) (numbers : list Z) : Chain :=
  {| chain_id := chars id; residues := residue_numbered <$> numbers |}.

(** One model, chains A and B of 10 residues each, numbered 1 to 10. *)
Definition two_chains : Structure :=
  [ {| model_id := 0;
       chains := [chain_numbered "A" (seqZ 1 10);
                  chain_numbered "B" (seqZ 1 10)] |} ].

(** One model, one chain of 10 residues numbered 1 to 9 and 11. *)
Definition gapped : Chain := chain_numbered "A" (seqZ 1 9 ++ [11]).

Definition gapped_chain : Structure :=
  [ {| model_id := 0; chains := [gapped] |} ].

(** One model, one chain of 8 residues. *)
Definition short_chain : Chain := chain_numbered "A" (seqZ 1 8).

End Samples.

(** ** Views of a file used to state further properties *)

Module Views.
Import Text Renumber.

(** Two lines are alike for the renumbering loop when they pass the
    same [startswith] tests and, if they are ATOM or TER lines, carry
    the same text in [line[22:26]]. *)
Definition same_columns (line line' : text) : Prop :=
  startswith (chars "ATOM") line = startswith (chars "ATOM") line'
  ∧ startswith (chars "TER") line = startswith (chars "TER") line'
  ∧ (record_line line = true → residue_field line = residue_field line').

(** The record lines of a file. *)
Definition record_lines (lines : list text) : list text :=
  filter (λ l, record_line l = true) lines.

(** [file = os.path.join(directory, file_prefix + '.pdb')]: the path the
    segmenter hands to the parser. *)
Definition input_file (os_path_join : text → text → text) (file_prefix : text)
  : text :=
  os_path_join Segment.directory (file_prefix ++ chars ".pdb").

(** The number the loop writes into each line, in file order: the
    counter after the iteration for an ATOM or TER line, nothing for
    any other line. *)
Fixpoint written_numbers (st : state) (lines : list text) : list (option Z) :=
  match lines with
  | [] => []
  | line :: rest =>
      let st' := (step st line).1 in
      (if record_line line then Some (current_residue_number st') else None)
        :: written_numbers st' rest
  end.

(** A line with a number written into it, or left alone. *)
Definition with_number (number : option Z) (line : text) : text :=
  match number with
  | Some n => rewrite_field n line
  | None => line
  end.

End Views.

(** ** The pair lister ([pairwise-comparisons.py]) *)

Module Pairwise.
Import Text.

(** [itertools.combinations(iterable, 2)]: the pairs of the elements at
    positions [i < j], in the order of the positions. *)
Fixpoint combinations2 {A} (l : list A) : list (A * A) :=
  match l with
  | [] => []
  | x :: rest => (pair x <$> rest) ++ combinations2 rest
  end.

(** [pairwise_comparisons], given what [os.listdir(directory)] returns:
    the lines it prints, [f"{file1} {file2}"] for every pair. *)
Definition pairwise_comparisons (files : list text) : list text :=
  (λ p : text * text, p.1 ++ chars " " ++ p.2) <$> combinations2 files.

End Pairwise.

(** ** The downloader ([download_pdb.py]) *)

Module Download.
Import Text.

(** *** Text methods, on ASCII text

    [str.upper] and [str.strip] are modelled for text of ASCII
    characters (codes below 128), which is what PDB identifiers are;
    [strip] is the one of [Renumber]. *)
Definition is_ascii (c : ascii) : bool := Nat.ltb (nat_of_ascii c) 128.
Definition is_lower (c : ascii) : bool :=
  Nat.leb 97 (nat_of_ascii c) && Nat.leb (nat_of_ascii c) 122.

Definition upper_char (c : ascii) : ascii :=
  if is_lower c then ascii_of_nat (nat_of_ascii c - 32) else c.

(** [s.upper()]. *)
Definition upper (s : text) : text := upper_char <$> s.

(** [s.strip()]. *)
Definition strip (s : text) : text := Renumber.strip s.

(** [s.split(sep)] for a separator of one character: always at least
    one piece. *)
Fixpoint split (sep : ascii) (s : text) : list text :=
  match s with
  | [] => [[]]
  | c :: rest =>
      if bool_decide (c = sep) then [] :: split sep rest
      else match split sep rest with
           | piece :: pieces => (c :: piece) :: pieces
           | [] => [[c]]
           end
  end.

(** [sep.join(pieces)]. *)
Fixpoint join (sep : text) (pieces : list text) : text :=
  match pieces with
  | [] => []
  | [piece] => piece
  | piece :: rest => piece ++ sep ++ join sep rest
  end.

(** [[pid.strip().upper() for pid in pdb_ids.split(',') if pid.strip()]]. *)
Definition parse_pdb_ids (pdb_ids : text) : list text :=
  (λ pid, upper (strip pid))
    <$> filter (λ pid, strip pid ≠ []) (split ","%char pdb_ids).

(** [[line.strip().upper() for line in f if line.strip()]]. *)
Definition parse_id_lines (content : text) : list text :=
  (λ line, upper (strip line))
    <$> filter (λ line, strip line ≠ []) (readlines content).

(** An identifier as the parsing leaves it: not empty, free of commas,
    of blanks at its ends and of lower-case letters. *)
Definition clean_id (id : text) : Prop :=
  id ≠ [] ∧ ((","%char) ∉ id) ∧ strip id = id ∧ upper id = id.

(** *** Output and the outside world *)

Inductive stream := stdout | stderr.

Global Instance stream_eq_dec : EqDecision stream.
Proof. solve_decision. Defined.

(** One call of [print]: the stream and the text, without the line end
    that [print] adds. *)
Definition output : Type := stream * text.

(** What [requests.get(url, timeout=15)] comes to: a response, or an
    exception, named by the [except] clause that catches it. *)
Inductive get_result :=
  | Response (status_code : Z) (content : text)
  | ConnectionError
  | Timeout
  | RequestException (e : text).

(** What opening and reading the ID file comes to. *)
Inductive read_result :=
  | FileContent (content : text)
  | FileNotFoundError
  | ReadIOError (e : text).

(** [args] after [parser.parse_args()]. *)
Record Args := {
  pdb_ids : option text;
  id_file : option text;
  output_dir : text
}.

(** What [parser.parse_args()] lets through. The two options form a
    mutually exclusive group that is required: with both on the command
    line, or neither, [argparse] ends the process with status 2 before
    [main] goes on, so exactly one of the two is not [None]. Its value
    may be the empty string. *)
Definition parsed (args : Args) : Prop :=
  (is_Some (pdb_ids args) ∧ id_file args = None)
  ∨ (pdb_ids args = None ∧ is_Some (id_file args)).

Global Instance parsed_dec args : Decision (parsed args).
Proof. unfold parsed. apply _. Defined.

(** Truth value of an argument that is [None] or a string. *)
Definition given (arg : option text) : bool :=
  match arg with
  | Some (_ :: _) => true
  | _ => false
  end.

Definition RCSB_DOWNLOAD_URL (pdb_id : text) : text :=
  chars "https://files.rcsb.org/download/" ++ pdb_id ++ chars ".pdb".

Section World.

(** The state of everything outside the program, and the calls that
    reach it. [os.makedirs] and writing the file return the text of the
    [OSError] or [IOError] they raise, if they raise one. *)
Variable World : Type.
Variable os_path_join : text → text → text.
Variable os_makedirs : text → World → option text * World.
Variable requests_get : text → World → get_result * World.
Variable write_binary : text → text → World → option text * World.
Variable read_text : text → World → read_result * World.

(** [download_pdb_file(pdb_id, output_dir)]: the value returned, what
    is printed, and the world afterwards. *)
Definition download_pdb_file (pdb_id output_dir : text) (w : World)
  : bool * list output * World :=
  let pdb_id := upper pdb_id in
  let download_url := RCSB_DOWNLOAD_URL pdb_id in
  match os_makedirs output_dir w with
  | (Some e, w) =>
      (false,
       [(stderr, chars "Error: Could not create directory " ++ output_dir
                   ++ chars ". " ++ e)],
       w)
  | (None, w) =>
      let output_filename := os_path_join output_dir (pdb_id ++ chars ".pdb") in
      let attempting :=
        (stdout, chars "Attempting to download PDB ID: " ++ pdb_id
                   ++ chars " from " ++ download_url ++ chars "...") in
      match requests_get download_url w with
      | (Response status_code content, w) =>
          (* response.raise_for_status() *)
          if bool_decide (400 ≤ status_code < 600) then
            if bool_decide (status_code = 404) then
              (false,
               [attempting;
                (stderr, chars "Error: PDB ID " ++ pdb_id
                           ++ chars " not found (404 Error). URL: "
                           ++ download_url)],
               w)
            else
              (false,
               [attempting;
                (stderr, chars "Error downloading " ++ pdb_id
                           ++ chars ": HTTP Error " ++ str status_code
                           ++ chars " for URL " ++ download_url)],
               w)
          else
            match write_binary output_filename content w with
            | (None, w) =>
                (true,
                 [attempting;
                  (stdout, chars "Successfully downloaded and saved: "
                             ++ output_filename)],
                 w)
            | (Some e, w) =>
                (false,
                 [attempting;
                  (stderr, chars "Error saving file " ++ output_filename
                             ++ chars ": " ++ e)],
                 w)
            end
      | (ConnectionError, w) =>
          (false,
           [attempting;
            (stderr, chars "Error downloading " ++ pdb_id
                       ++ chars ": Connection error. Check your network connection and the URL: "
                       ++ download_url)],
           w)
      | (Timeout, w) =>
          (false,
           [attempting;
            (stderr, chars "Error downloading " ++ pdb_id
                       ++ chars ": Request timed out for URL: " ++ download_url)],
           w)
      | (RequestException e, w) =>
          (false,
           [attempting;
            (stderr, chars "Error downloading " ++ pdb_id
                       ++ chars ": An unexpected error occurred: " ++ e
                       ++ chars " for URL: " ++ download_url)],
           w)
      end
  end.

(** The loop [for pdb_id in pdb_ids_to_download] of [main], entered
    with the two tallies: [successful_downloads], [failed_ids], what is
    printed, and the world afterwards. *)
Fixpoint download_loop (ids : list text) (output_dir : text)
    (successful_downloads : Z) (failed_ids : list text) (w : World)
  : Z * list text * list output * World :=
  match ids with
  | [] => (successful_downloads, failed_ids, [], w)
  | pdb_id :: rest =>
      let '(ok, out, w) := download_pdb_file pdb_id output_dir w in
      let '(successful_downloads, failed_ids) :=
        if ok then (successful_downloads + 1, failed_ids)
        else (successful_downloads, failed_ids ++ [pdb_id]) in
      let '(successful_downloads, failed_ids, out', w) :=
        download_loop rest output_dir successful_downloads failed_ids w in
      (successful_downloads, failed_ids,
       out ++ [(stdout, replicate 30 "-"%char)] ++ out', w)
  end.

(** [main()] from the line after [args = parser.parse_args()] on: the
    status it exits with, what is printed, and the world afterwards.
    The arguments that reach it are those of [parsed]. *)
Definition main (args : Args) (w : World) : Z * list output * World :=
  (* the IDs, or the exit in the [except] clauses of the ID file *)
  let gathered : (list text + Z) * list output * World :=
    if given (pdb_ids args) then
      (inl (parse_pdb_ids (default [] (pdb_ids args))), [], w)
    else if given (id_file args) then
      let file := default [] (id_file args) in
      match read_text file w with
      | (FileContent content, w) =>
          let ids := parse_id_lines content in
          (inl ids,
           if bool_decide (ids = []) then
             [(stdout, chars "Info: The file " ++ file
                         ++ chars " is empty or contains no valid PDB IDs.")]
           else [],
           w)
      | (FileNotFoundError, w) =>
          (inr 1, [(stderr, chars "Error: ID file not found: " ++ file)], w)
      | (ReadIOError e, w) =>
          (inr 1,
           [(stderr, chars "Error reading ID file " ++ file ++ chars ": " ++ e)],
           w)
      end
    else (inl [], [], w) in
  match gathered with
  | (inr status, out, w) => (status, out, w)
  | (inl [], out, w) =>
      (0, out ++ [(stdout, chars "No PDB IDs to download.")], w)
  | (inl pdb_ids_to_download, out, w) =>
      let total_ids := Z.of_nat (length pdb_ids_to_download) in
      let starting :=
        (stdout, [newline] ++ chars "Starting PDB file downloads to directory: "
                   ++ output_dir args) in
      let '(successful_downloads, failed_ids, out', w) :=
        download_loop pdb_ids_to_download (output_dir args) 0 [] w in
      let summary :=
        (stdout, [newline] ++ chars "Summary: " ++ str successful_downloads
                   ++ chars " out of " ++ str total_ids
                   ++ chars " files downloaded successfully.") in
      match failed_ids with
      | _ :: _ =>
          (1,
           out ++ [starting] ++ out' ++ [summary]
             ++ [(stderr, chars "Failed to download the following PDB IDs: "
                            ++ join (chars ", ") failed_ids)],
           w)
      | [] => (0, out ++ [starting] ++ out' ++ [summary], w)
      end
  end.

End World.

End Download.

(** ** Sample worlds for the downloader *)

Module Worlds.
Import Text Download.

(** A world for the downloader that is a log of the calls made to it,
    latest first, in which every call succeeds and every URL answers
    with status 200; and one in which every URL answers 404. *)
Definition log_makedirs (dir : text) (w : list text) : option text * list text :=
  (None, (chars "makedirs " ++ dir) :: w).

Definition log_get_ok (url : text) (w : list text)
  : get_result * list text :=
  (Response 200 (chars "HEADER"), (chars "get " ++ url) :: w).

Definition log_get_404 (url : text) (w : list text)
  : get_result * list text :=
  (Response 404 [], (chars "get " ++ url) :: w).

Definition log_write (file content : text) (w : list text)
  : option text * list text :=
  (None, (chars "write " ++ file) :: w).

Definition log_read_missing (file : text) (w : list text)
  : read_result * list text :=
  (FileNotFoundError, (chars "read " ++ file) :: w).

End Worlds.

(** * Properties *)

(** ** Text *)

Module TextFacts.
Import Text.

Lemma chars_inj s1 s2 : chars s1 = chars s2 → s1 = s2.
Proof.
  unfold chars. intros H.
  rewrite <- (string_of_list_ascii_of_string s1), H.
  apply string_of_list_ascii_of_string.
Qed.

Lemma str_inj n m : str n = str m → n = m.
Proof.
  unfold str. intros H%chars_inj.
  apply DecimalZ.to_int_inj.
  assert (Some (Z.to_int n) = Some (Z.to_int m)) as [= ->]; [|done].
  by rewrite <- !NilEmpty.isi, H.
Qed.

Lemma string_of_uint_numeral d :
  Forall numeral_char (chars (NilEmpty.string_of_uint d)).
Proof.
  induction d; simpl; constructor; try done;
    unfold numeral_char; vm_compute chars; set_solver.
Qed.

Lemma str_numeral n : Forall numeral_char (str n).
Proof.
  unfold str. destruct (Z.to_int n) as [d|d]; simpl.
  - apply string_of_uint_numeral.
  - constructor; [|apply string_of_uint_numeral].
    unfold numeral_char; vm_compute chars; set_solver.
Qed.

Lemma numeral_not_space c : numeral_char c → c ≠ space.
Proof.
  unfold numeral_char. vm_compute chars. intros H ->.
  repeat (apply elem_of_cons in H as [H|H]; [done|]).
  by apply elem_of_nil in H.
Qed.

Lemma numeral_not_newline c : numeral_char c → c ≠ newline.
Proof.
  unfold numeral_char. vm_compute chars. intros H ->.
  repeat (apply elem_of_cons in H as [H|H]; [done|]).
  by apply elem_of_nil in H.
Qed.

Lemma length_rjust w s : length (rjust w s) = (w `max` length s)%nat.
Proof. unfold rjust. rewrite length_app, length_replicate. lia. Qed.

Lemma padded_inj k1 k2 (s1 s2 : text) :
  Forall (λ c, c ≠ space) s1 → Forall (λ c, c ≠ space) s2 →
  replicate k1 space ++ s1 = replicate k2 space ++ s2 →
  s1 = s2.
Proof.
  intros H1 H2. revert k2.
  induction k1 as [|k1 IH]; intros [|k2]; simpl; intros Heq; try done.
  - subst s1. by inversion H1.
  - subst s2. by inversion H2.
  - injection Heq as Heq. eauto.
Qed.

Lemma rjust_str_inj w n m : rjust w (str n) = rjust w (str m) → n = m.
Proof.
  intros H. apply str_inj. eapply padded_inj, H;
    (eapply Forall_impl; [apply str_numeral|apply numeral_not_space]).
Qed.

Lemma newline_not_in_rjust_str w n : newline ∉ rjust w (str n).
Proof.
  unfold rjust. rewrite elem_of_app. intros [H%elem_of_replicate|H].
  - by destruct H.
  - pose proof (str_numeral n) as Hn. rewrite Forall_forall in Hn.
    by apply Hn, numeral_not_newline in H.
Qed.

(** Four columns hold the numbers up to 9999. *)
Lemma length_str_small n : 0 ≤ n ≤ 9999 → (length (str n) ≤ 4)%nat.
Proof.
  intros Hn.
  assert (forallb (λ k, Nat.leb (length (str k)) 4) (seqZ 0 10000) = true)
    as Hall by (vm_compute; reflexivity).
  rewrite forallb_forall in Hall.
  apply Nat.leb_le, Hall, list_elem_of_In, elem_of_seqZ. lia.
Qed.

Lemma length_rjust_str n : 0 ≤ n ≤ 9999 → length (rjust 4 (str n)) = 4%nat.
Proof. intros H%length_str_small. rewrite length_rjust. lia. Qed.

Lemma length_rjust_str_ge n : (4 ≤ length (rjust 4 (str n)))%nat.
Proof. rewrite length_rjust. lia. Qed.

Lemma startswith_true p s : startswith p s = true ↔ take (length p) s = p.
Proof. unfold startswith. apply bool_decide_eq_true. Qed.

Lemma startswith_app p s t :
  (length p ≤ length s)%nat → startswith p (s ++ t) = startswith p s.
Proof.
  intros H. unfold startswith. by rewrite take_app_le.
Qed.

Lemma startswith_length p s : startswith p s = true → (length p ≤ length s)%nat.
Proof.
  rewrite startswith_true. intros H.
  rewrite <- H at 1. rewrite length_take. lia.
Qed.

Lemma readlines_line_list s : line_list (readlines s).
Proof.
  induction s as [|c s IH]; simpl; [constructor|].
  case_bool_decide as Hc.
  - subst c. by apply (line_list_cons []); [apply not_elem_of_nil|].
  - destruct IH as [|body Hne Hnl|body rest Hnl Hrest].
    + apply line_list_last; [done|].
      apply not_elem_of_cons. split; [congruence|apply not_elem_of_nil].
    + apply line_list_last; [done|].
      apply not_elem_of_cons. split; [congruence|done].
    + apply (line_list_cons (c :: body)); [|done].
      apply not_elem_of_cons. split; [congruence|done].
Qed.

Lemma readlines_open_line body :
  body ≠ [] → newline ∉ body → readlines body = [body].
Proof.
  induction body as [|c body IH]; [done|].
  intros _ [Hc Hnl]%not_elem_of_cons. simpl.
  rewrite bool_decide_eq_false_2 by done.
  destruct body as [|d body]; [done|]. by rewrite IH.
Qed.

Lemma readlines_closed_line body s :
  newline ∉ body →
  readlines (body ++ newline :: s) = (body ++ [newline]) :: readlines s.
Proof.
  induction body as [|c body IH]; simpl.
  - by intros _.
  - intros [Hc Hnl]%not_elem_of_cons.
    rewrite bool_decide_eq_false_2 by done. by rewrite IH.
Qed.

Lemma readlines_writelines lines :
  line_list lines → readlines (writelines lines) = lines.
Proof.
  unfold writelines. induction 1 as [|body Hne Hnl|body rest Hnl Hrest IH]; simpl.
  - done.
  - rewrite app_nil_r. by apply readlines_open_line.
  - rewrite <- app_assoc. simpl. by rewrite readlines_closed_line, IH.
Qed.

Lemma writelines_readlines s : writelines (readlines s) = s.
Proof.
  unfold writelines. induction s as [|c s IH]; simpl; [done|].
  case_bool_decide; simpl; [by rewrite IH|].
  destruct (readlines s); simpl in *; by rewrite <- IH.
Qed.

(** *** Line ends *)



Lemma universal_newlines_other c s :
  c ≠ carriage_return →
  universal_newlines (c :: s) = c :: universal_newlines s.
Proof. intros H. simpl. by rewrite bool_decide_eq_false_2. Qed.

Lemma universal_newlines_crlf s :
  universal_newlines (carriage_return :: newline :: s)
  = newline :: universal_newlines s.
Proof. done. Qed.




(** Text without carriage returns is read as it is. *)
Lemma universal_newlines_id s :
  carriage_return ∉ s → universal_newlines s = s.
Proof.
  induction s as [|c s IH]; [done|].
  intros [Hc Hs]%not_elem_of_cons.
  rewrite universal_newlines_other by done. by rewrite IH.
Qed.

Lemma write_newlines_cons linesep c s :
  write_newlines linesep (c :: s)
  = (if bool_decide (c = newline) then linesep else [c])
    ++ write_newlines linesep s.
Proof. done. Qed.

(** On POSIX the text is stored as it is written. *)
Lemma write_newlines_posix s : write_newlines [newline] s = s.
Proof.
  induction s as [|c s IH]; [done|].
  rewrite write_newlines_cons, IH. by case_bool_decide; subst.
Qed.

(** What was written with either line separator reads back as the text
    the program wrote, provided that text held no carriage return. *)
Lemma universal_newlines_write linesep s :
  os_linesep linesep → carriage_return ∉ s →
  universal_newlines (write_newlines linesep s) = s.
Proof.
  intros Hsep. induction s as [|c s IH]; [done|].
  intros [Hc Hs]%not_elem_of_cons. rewrite write_newlines_cons.
  case_bool_decide as Hnl.
  - subst c. destruct Hsep as [->| ->]; simpl app.
    + rewrite universal_newlines_other by done. by rewrite IH.
    + rewrite universal_newlines_crlf. by rewrite IH.
  - simpl app. rewrite universal_newlines_other by done. by rewrite IH.
Qed.


End TextFacts.

(** ** The renumbering loop, line by line *)

Module RenumberFacts.
Import Text TextFacts Renumber.

Lemma atom_not_ter line :
  startswith (chars "ATOM") line = true → startswith (chars "TER") line = false.
Proof.
  rewrite startswith_true. intros H.
  apply bool_decide_eq_false. intros H'.
  destruct line as [|a [|b [|c [|d line]]]]; simplify_eq/=.
Qed.

Lemma step_atom st line :
  startswith (chars "ATOM") line = true →
  step st line =
    (atom_branch st line,
     rewrite_field (current_residue_number (atom_branch st line)) line).
Proof. intros H. unfold step. by rewrite H, (atom_not_ter _ H). Qed.

Lemma ter_branch_number st line :
  current_residue_number (ter_branch st line) = current_residue_number st.
Proof. unfold ter_branch. by case_bool_decide. Qed.

Lemma ter_branch_residue st line :
  current_residue (ter_branch st line) = Some (residue_field line).
Proof.
  unfold ter_branch. by case_bool_decide.
Qed.

Lemma ter_branch_agree st line :
  Some (residue_field line) = current_residue st → ter_branch st line = st.
Proof.
  intros H. unfold ter_branch. by rewrite bool_decide_eq_false_2 by naive_solver.
Qed.

Lemma atom_branch_residue st line :
  current_residue (atom_branch st line) = Some (residue_field line).
Proof.
  unfold atom_branch. by case_bool_decide.
Qed.

Lemma step_ter st line :
  startswith (chars "TER") line = true →
  step st line =
    (ter_branch st line, rewrite_field (current_residue_number st) line).
Proof.
  intros H. unfold step.
  destruct (startswith (chars "ATOM") line) eqn:Ha.
  - apply atom_not_ter in Ha. congruence.
  - by rewrite H, ter_branch_number.
Qed.

Lemma step_other st line :
  record_line line = false → step st line = (st, line).
Proof.
  unfold record_line. intros [Ha Ht]%orb_false_elim.
  unfold step. by rewrite Ha, Ht.
Qed.

Lemma step_number_mono st line :
  current_residue_number st ≤ current_residue_number (step st line).1.
Proof.
  destruct (startswith (chars "ATOM") line) eqn:Ha.
  - rewrite step_atom by done. simpl. unfold atom_branch.
    case_bool_decide; simpl; lia.
  - destruct (startswith (chars "TER") line) eqn:Ht.
    + rewrite step_ter by done. simpl. rewrite ter_branch_number. lia.
    + rewrite step_other; [done|]. unfold record_line. by rewrite Ha, Ht.
Qed.

(** C4. On a TER line the counter keeps its value, also when the field
    differs from the current identifier, which then takes the field's
    value; the line is rewritten with the counter as it stands, whether
    the field differed or not. *)
Theorem ter_line_updates_identifier_only st line :
  startswith (chars "TER") line = true →
  current_residue_number (step st line).1 = current_residue_number st
  ∧ (Some (residue_field line) ≠ current_residue st →
     current_residue (step st line).1 = Some (residue_field line))
  ∧ (Some (residue_field line) = current_residue st →
     (step st line).1 = st)
  ∧ (step st line).2 =
      take 22 line ++ rjust 4 (str (current_residue_number st)) ++ drop 26 line.
Proof.
  intros H. rewrite step_ter by done. simpl.
  split_and!; [apply ter_branch_number| |  |done].
  - intros _. apply ter_branch_residue.
  - apply ter_branch_agree.
Qed.

Lemma atom_branch_number st line :
  current_residue_number (atom_branch st line) =
    if bool_decide (Some (residue_field line) ≠ current_residue st)
    then current_residue_number st + 1
    else current_residue_number st.
Proof. unfold atom_branch. by case_bool_decide. Qed.

Lemma atom_branch_number_cases st line :
  (Some (residue_field line) ≠ current_residue st →
   current_residue_number (atom_branch st line) = current_residue_number st + 1)
  ∧ (Some (residue_field line) = current_residue st →
     current_residue_number (atom_branch st line) = current_residue_number st).
Proof.
  unfold atom_branch. split; intros H; case_bool_decide; simpl; congruence.
Qed.

(** C8, as the loop has it. An ATOM line is handled without any parsing
    of its field, so nothing can be raised: the iteration always yields
    a state and a line. The field is compared with the current
    identifier as text, and the counter goes up by one exactly when the
    two differ, whether the field reads as an integer or not. *)
Theorem atom_line_field_compared_as_text st line :
  startswith (chars "ATOM") line = true →
  ∃ st' out,
    step st line = (st', out)
    ∧ current_residue st' = Some (residue_field line)
    ∧ (Some (residue_field line) ≠ current_residue st →
       current_residue_number st' = current_residue_number st + 1)
    ∧ (Some (residue_field line) = current_residue st →
       current_residue_number st' = current_residue_number st)
    ∧ out = rewrite_field (current_residue_number st') line.
Proof.
  intros H. eexists _, _. split; [by apply step_atom|].
  split; [apply atom_branch_residue|].
  pose proof (atom_branch_number_cases st line) as [? ?]. done.
Qed.

Lemma rewrite_field_short n line :
  (length line < 26)%nat →
  rewrite_field n line = take 22 line ++ rjust 4 (str n).
Proof.
  intros H. unfold rewrite_field.
  by rewrite (drop_ge line 26), app_nil_r by lia.
Qed.

Lemma step_record st line :
  record_line line = true →
  (step st line).2 = rewrite_field (current_residue_number (step st line).1) line.
Proof.
  unfold record_line. intros [H|H]%orb_true_iff.
  - by rewrite step_atom.
  - rewrite step_ter by done. simpl. by rewrite ter_branch_number.
Qed.

(** C10, as the slices work. For an ATOM or TER line of fewer than 26
    characters the rewritten line is its first 22 characters followed
    by the right-justified counter text. When the line has at most 22
    characters that is the whole line, terminator included, with the
    text after it; with 23 to 25 characters the tail from column 23 on
    is replaced. The text has 4 characters while the counter is at most
    9999, and in every case the length of the line changes. *)
Theorem short_record_line st line :
  record_line line = true →
  (length line < 26)%nat →
  let n := current_residue_number (step st line).1 in
  (step st line).2 = take 22 line ++ rjust 4 (str n)
  ∧ ((length line ≤ 22)%nat → (step st line).2 = line ++ rjust 4 (str n))
  ∧ (0 ≤ n ≤ 9999 → length (rjust 4 (str n)) = 4%nat)
  ∧ length (step st line).2 ≠ length line.
Proof.
  intros Hrec Hlen n.
  assert ((step st line).2 = take 22 line ++ rjust 4 (str n)) as Hout.
  { rewrite step_record by done. by apply rewrite_field_short. }
  split_and!; [done| |apply length_rjust_str|].
  - intros Hle. by rewrite Hout, take_ge.
  - rewrite Hout, length_app, length_take.
    pose proof (length_rjust_str_ge n). lia.
Qed.

(** *** The loop over all lines *)

Lemma run_cons st line rest :
  run st (line :: rest) =
    ((run (step st line).1 rest).1,
     (step st line).2 :: (run (step st line).1 rest).2).
Proof.
  cbn [run]. destruct (step st line) as [st' out]. cbn [fst snd].
  by destruct (run st' rest).
Qed.

Lemma length_run st lines : length (run st lines).2 = length lines.
Proof.
  revert st. induction lines as [|line rest IH]; intros st; [done|].
  rewrite run_cons. simpl. by rewrite IH.
Qed.

Lemma run_number_mono st lines :
  current_residue_number st ≤ current_residue_number (run st lines).1.
Proof.
  revert st. induction lines as [|line rest IH]; intros st; [done|].
  rewrite run_cons. simpl.
  etrans; [apply (step_number_mono st line)|apply IH].
Qed.

Lemma initial_number : current_residue_number initial = 0.
Proof. done. Qed.


Lemma rewrite_field_startswith p n line :
  (length p ≤ 22)%nat →
  startswith p line = true → startswith p (rewrite_field n line) = true.
Proof.
  intros Hp H. pose proof (startswith_length _ _ H) as Hlen.
  unfold rewrite_field. rewrite startswith_app.
  - apply startswith_true. rewrite take_take.
    replace (length p `min` 22)%nat with (length p) by lia.
    by apply startswith_true.
  - rewrite length_take. lia.
Qed.

Lemma step_keeps_kind st line :
  startswith (chars "ATOM") (step st line).2 = startswith (chars "ATOM") line
  ∧ startswith (chars "TER") (step st line).2 = startswith (chars "TER") line.
Proof.
  destruct (startswith (chars "ATOM") line) eqn:Ha.
  - rewrite step_atom by done. cbn [fst snd].
    assert (startswith (chars "ATOM")
              (rewrite_field (current_residue_number (atom_branch st line)) line)
            = true) as Ha'
      by (apply rewrite_field_startswith; [simpl; lia|done]).
    by rewrite Ha', !atom_not_ter.
  - destruct (startswith (chars "TER") line) eqn:Ht.
    + rewrite step_ter by done. cbn [fst snd].
      assert (startswith (chars "TER")
                (rewrite_field (current_residue_number st) line) = true) as Ht'
        by (apply rewrite_field_startswith; [simpl; lia|done]).
      split; [|by rewrite Ht'].
      destruct (startswith (chars "ATOM") (rewrite_field _ _)) eqn:Ha'; [|done].
      apply atom_not_ter in Ha'. congruence.
    + rewrite step_other; [done|]. unfold record_line. by rewrite Ha, Ht.
Qed.

Lemma rewrite_field_wide n line :
  (26 ≤ length line)%nat → length (rjust 4 (str n)) = 4%nat →
  length (rewrite_field n line) = length line
  ∧ take 22 (rewrite_field n line) = take 22 line
  ∧ slice 22 26 (rewrite_field n line) = rjust 4 (str n)
  ∧ drop 26 (rewrite_field n line) = drop 26 line.
Proof.
  intros Hlen Hn. unfold rewrite_field, slice.
  assert (length (take 22 line) = 22%nat) as H22 by (rewrite length_take; lia).
  split_and!.
  - rewrite !length_app, H22, Hn, length_drop. lia.
  - by rewrite take_app_length' by done.
  - rewrite drop_app_length' by done.
    by rewrite take_app_length' by done.
  - rewrite app_assoc. rewrite drop_app_length'; [done|].
    rewrite length_app. lia.
Qed.


(** *** Numbering by runs *)

Lemma length_number_runs cur n fields :
  length (number_runs cur n fields) = length fields.
Proof.
  revert cur n. induction fields as [|f rest IH]; intros cur n; [done|].
  simpl. by rewrite IH.
Qed.

Lemma number_runs_lower cur n fields :
  Forall (λ x, n ≤ x) (number_runs cur n fields).
Proof.
  revert cur n. induction fields as [|f rest IH]; intros cur n; simpl.
  { constructor. }
  constructor; [case_bool_decide; lia|].
  eapply Forall_impl; [apply IH|]. simpl. intros x Hx.
  case_bool_decide; lia.
Qed.

Lemma number_runs_mono cur n fields i j a b :
  (i ≤ j)%nat →
  number_runs cur n fields !! i = Some a →
  number_runs cur n fields !! j = Some b →
  a ≤ b.
Proof.
  revert cur n i j. induction fields as [|f rest IH]; intros cur n i j Hij; [done|].
  simpl. destruct i as [|i], j as [|j]; simpl; try lia.
  - intros [= <-] [= <-]. lia.
  - intros [= <-] Hb.
    pose proof (number_runs_lower (Some f)
      (if bool_decide (Some f ≠ cur) then n + 1 else n) rest) as Hall.
    rewrite Forall_lookup in Hall. by apply (Hall j b).
  - apply IH. lia.
Qed.

Lemma number_runs_succ cur n fields i f g a b :
  fields !! i = Some f → fields !! S i = Some g →
  number_runs cur n fields !! i = Some a →
  number_runs cur n fields !! S i = Some b →
  b = if bool_decide (g = f) then a else a + 1.
Proof.
  revert cur n i. induction fields as [|f0 rest IH]; intros cur n i; [done|].
  destruct i as [|i]; simpl.
  - intros [= ->]. destruct rest as [|g0 rest]; [done|]. simpl.
    intros [= ->] [= <-] [= <-].
    repeat case_bool_decide; simplify_eq; done.
  - apply IH.
Qed.

Lemma number_runs_first_appearance cur n fields i j a b f :
  (i < j)%nat →
  number_runs cur n fields !! i = Some a →
  number_runs cur n fields !! j = Some b →
  fields !! j = Some f → f ∉ take j fields →
  a < b.
Proof.
  intros Hij Ha Hb Hf Hnew. destruct j as [|j]; [lia|].
  assert (j < length fields)%nat as Hj by (apply lookup_lt_Some in Hf; lia).
  destruct (lookup_lt_is_Some_2 fields j Hj) as [g Hg].
  destruct (lookup_lt_is_Some_2 (number_runs cur n fields) j) as [c Hc].
  { by rewrite length_number_runs. }
  rewrite (number_runs_succ _ _ _ _ _ _ _ _ Hg Hf Hc Hb).
  assert (a ≤ c) by (eapply (number_runs_mono _ _ _ i j); [lia|done..]).
  case_bool_decide as Hfg; [|lia].
  destruct Hnew. subst g. apply list_elem_of_lookup. exists j.
  rewrite lookup_take_lt by lia. done.
Qed.

(** *** The numbers written into the ATOM lines *)

Lemma atom_lines_cons line rest :
  atom_lines (line :: rest) =
    if startswith (chars "ATOM") line then line :: atom_lines rest
    else atom_lines rest.
Proof.
  unfold atom_lines. destruct (startswith (chars "ATOM") line) eqn:Ha.
  - by rewrite filter_cons_True.
  - rewrite filter_cons_False; [done|congruence].
Qed.

Lemma atom_lines_run st lines :
  atom_lines (run st lines).2 =
    zip_with rewrite_field (atom_numbers st lines) (atom_lines lines).
Proof.
  revert st. induction lines as [|line rest IH]; intros st; [done|].
  rewrite run_cons. cbn [fst snd atom_numbers]. rewrite !atom_lines_cons.
  destruct (step_keeps_kind st line) as [-> _].
  destruct (startswith (chars "ATOM") line) eqn:Ha; [|apply IH].
  cbn [zip_with]. rewrite IH. f_equal. by rewrite step_atom.
Qed.

Lemma atom_numbers_runs st lines :
  ter_agree st lines = true →
  atom_numbers st lines =
    number_runs (current_residue st) (current_residue_number st)
      (atom_fields lines).
Proof.
  revert st. induction lines as [|line rest IH]; intros st; [done|].
  cbn [ter_agree atom_numbers]. intros [Hter Hrest]%andb_true_iff.
  unfold atom_fields in *. rewrite atom_lines_cons.
  destruct (startswith (chars "ATOM") line) eqn:Ha.
  - rewrite IH by done. rewrite step_atom by done. cbn [fst fmap list_fmap number_runs].
    by rewrite atom_branch_residue, atom_branch_number.
  - rewrite IH by done. f_equal.
    + destruct (startswith (chars "TER") line) eqn:Ht.
      * rewrite step_ter by done. cbn [fst].
        by rewrite ter_branch_agree by (by apply bool_decide_eq_true in Hter).
      * rewrite step_other; [done|]. unfold record_line. by rewrite Ha, Ht.
    + destruct (startswith (chars "TER") line) eqn:Ht.
      * rewrite step_ter by done. apply ter_branch_number.
      * rewrite step_other; [done|]. unfold record_line. by rewrite Ha, Ht.
Qed.

Lemma step_number_not_atom st line :
  startswith (chars "ATOM") line = false →
  current_residue_number (step st line).1 = current_residue_number st.
Proof.
  intros Ha. destruct (startswith (chars "TER") line) eqn:Ht.
  - rewrite step_ter by done. apply ter_branch_number.
  - rewrite step_other; [done|]. unfold record_line. by rewrite Ha, Ht.
Qed.

Lemma atom_numbers_head st lines n :
  atom_numbers st lines !! 0%nat = Some n →
  n = current_residue_number st ∨ n = current_residue_number st + 1.
Proof.
  revert st. induction lines as [|line rest IH]; intros st; [done|].
  cbn [atom_numbers]. destruct (startswith (chars "ATOM") line) eqn:Ha.
  - rewrite step_atom by done. cbn [fst]. intros [= <-].
    rewrite atom_branch_number. case_bool_decide; auto.
  - intros H%IH. by rewrite step_number_not_atom in H.
Qed.

Lemma atom_numbers_succ st lines i a b :
  atom_numbers st lines !! i = Some a →
  atom_numbers st lines !! S i = Some b →
  b = a ∨ b = a + 1.
Proof.
  revert st i. induction lines as [|line rest IH]; intros st i; [done|].
  cbn [atom_numbers]. destruct (startswith (chars "ATOM") line) eqn:Ha.
  - destruct i as [|i]; [|apply IH].
    intros [= <-] Hb. by apply atom_numbers_head in Hb.
  - apply IH.
Qed.

Lemma length_atom_numbers st lines :
  length (atom_numbers st lines) = length (atom_lines lines).
Proof.
  revert st. induction lines as [|line rest IH]; intros st; [done|].
  cbn [atom_numbers]. rewrite atom_lines_cons.
  destruct (startswith (chars "ATOM") line); cbn [length]; by rewrite IH.
Qed.

(** C2, with the TER lines accounted for. The ATOM lines of the result
    are the ATOM lines of the input with numbers written into them that
    go from one ATOM line to the next either unchanged or up by one, the
    first being 0 or 1. Take a file in which every TER line carries the
    identifier that is current when the loop reaches it. Then the
    numbers begin at 1, stay where two consecutive ATOM lines have equal
    original fields and go up by one where the fields differ; and an
    ATOM line on which an original identifier appears for the first
    time gets a number greater than every ATOM line before it. Original
    identifiers 5,5,5,9,9,12 are rewritten to 1,1,1,2,2,3. *)
Theorem renumbered_atoms_contiguous lines :
  let ns := atom_numbers initial lines in
  atom_lines (renumber_lines lines) =
    zip_with rewrite_field ns (atom_lines lines)
  ∧ length ns = length (atom_lines lines)
  ∧ (∀ n, ns !! 0%nat = Some n → n = 0 ∨ n = 1)
  ∧ (∀ i a b, ns !! i = Some a → ns !! S i = Some b → b = a ∨ b = a + 1)
  ∧ (ter_agree initial lines = true →
     (∀ n, ns !! 0%nat = Some n → n = 1)
     ∧ (∀ i f g a b,
          atom_fields lines !! i = Some f →
          atom_fields lines !! S i = Some g →
          ns !! i = Some a → ns !! S i = Some b →
          b = if bool_decide (g = f) then a else a + 1)
     ∧ (∀ i j a b f, (i < j)%nat →
          ns !! i = Some a → ns !! j = Some b →
          atom_fields lines !! j = Some f →
          f ∉ take j (atom_fields lines) →
          a < b)
     ∧ (atom_fields lines =
          chars <$> ["   5"; "   5"; "   5"; "   9"; "   9"; "  12"]%string →
        ns = [1; 1; 1; 2; 2; 3])).
Proof.
  intros ns. split_and!.
  - apply atom_lines_run.
  - apply length_atom_numbers.
  - intros n Hn. by apply atom_numbers_head in Hn.
  - apply atom_numbers_succ.
  - intros Hter.
    assert (ns = number_runs None 0 (atom_fields lines)) as Hns
      by (by apply atom_numbers_runs).
    split_and!.
    + rewrite Hns. destruct (atom_fields lines); simpl; [done|].
      by intros n [= <-].
    + rewrite Hns. intros i f g a b. apply number_runs_succ.
    + rewrite Hns. intros i j a b f. apply number_runs_first_appearance.
    + rewrite Hns. by intros ->.
Qed.

(** *** A second pass over the output *)

Lemma elem_of_take_weak (x : ascii) n l : x ∈ take n l → x ∈ l.
Proof. intros H. rewrite <- (take_drop n l). apply elem_of_app. by left. Qed.

Lemma elem_of_drop_weak (x : ascii) n l : x ∈ drop n l → x ∈ l.
Proof. intros H. rewrite <- (take_drop n l). apply elem_of_app. by right. Qed.

Lemma newline_not_in_rewrite_field n body :
  newline ∉ body → newline ∉ rewrite_field n body.
Proof.
  intros Hnl. unfold rewrite_field. rewrite !elem_of_app.
  intros [H|[H|H]].
  - by apply elem_of_take_weak in H.
  - by apply newline_not_in_rjust_str in H.
  - by apply elem_of_drop_weak in H.
Qed.

Lemma rewrite_field_nonempty n line : rewrite_field n line ≠ [].
Proof.
  intros H%(f_equal length). unfold rewrite_field in H.
  rewrite !length_app in H. pose proof (length_rjust_str_ge n).
  simpl in H. lia.
Qed.

Lemma rewrite_field_snoc n body c :
  (26 ≤ length body)%nat →
  rewrite_field n (body ++ [c]) = rewrite_field n body ++ [c].
Proof.
  intros H. unfold rewrite_field.
  rewrite take_app_le by lia. rewrite drop_app_le by lia.
  by rewrite <- !app_assoc.
Qed.

Lemma wide_closed_line body :
  wide_line (body ++ [newline]) → (26 ≤ length body)%nat.
Proof.
  intros [Hlen Hnl]. rewrite length_app in Hlen. simpl in Hlen.
  destruct (decide (26 ≤ length body)%nat) as [|Hshort]; [done|].
  destruct Hnl. rewrite take_ge by (rewrite length_app; simpl; lia).
  apply elem_of_app. right. apply list_elem_of_singleton. done.
Qed.

Lemma run_line_list st lines :
  line_list lines →
  Forall (λ l, record_line l = true → wide_line l) lines →
  line_list (run st lines).2.
Proof.
  intros Hll. revert st.
  induction Hll as [|body Hne Hnl|body rest Hnl Hrest IH]; intros st Hwide.
  - constructor.
  - rewrite run_cons. cbn [fst snd run].
    destruct (record_line body) eqn:Hrec.
    + rewrite step_record by done.
      apply line_list_last;
        [apply rewrite_field_nonempty|by apply newline_not_in_rewrite_field].
    + rewrite step_other by done. by apply line_list_last.
  - rewrite run_cons. cbn [fst snd].
    apply Forall_cons in Hwide as [Hline Hwide].
    destruct (record_line (body ++ [newline])) eqn:Hrec.
    + rewrite step_record by done.
      rewrite rewrite_field_snoc by (by apply wide_closed_line, Hline).
      apply line_list_cons; [by apply newline_not_in_rewrite_field|by apply IH].
    + rewrite step_other by done. cbn [fst snd].
      apply line_list_cons; [done|by apply IH].
Qed.

Lemma rewrite_field_idem n line :
  (26 ≤ length line)%nat → length (rjust 4 (str n)) = 4%nat →
  rewrite_field n (rewrite_field n line) = rewrite_field n line.
Proof.
  intros Hlen Hn.
  destruct (rewrite_field_wide n line Hlen Hn) as (_ & Htake & _ & Hdrop).
  unfold rewrite_field at 1. by rewrite Htake, Hdrop.
Qed.

Lemma residue_field_rewrite_field n line :
  (26 ≤ length line)%nat → length (rjust 4 (str n)) = 4%nat →
  residue_field (rewrite_field n line) = rjust 4 (str n).
Proof.
  intros Hlen Hn.
  by destruct (rewrite_field_wide n line Hlen Hn) as (_ & _ & Hfield & _).
Qed.

Lemma step_in_step st st2 line :
  (record_line line = true → wide_line line) →
  0 ≤ current_residue_number st →
  current_residue_number (step st line).1 ≤ 9999 →
  in_step st st2 →
  (step st2 (step st line).2).2 = (step st line).2
  ∧ in_step (step st line).1 (step st2 (step st line).2).1.
Proof.
  intros Hwide Hlo Hhi [Hnum Hcur].
  pose proof (step_number_mono st line) as Hmono.
  destruct (step_keeps_kind st line) as [Hka Hkt].
  destruct (startswith (chars "ATOM") line) eqn:Ha.
  - destruct Hwide as [Hlen _]; [unfold record_line; by rewrite Ha|].
    rewrite (step_atom st2) by done. revert Hka Hhi Hmono.
    rewrite step_atom by done. cbn [fst snd]. intros Hka Hhi Hmono.
    set (n' := current_residue_number (atom_branch st line)) in *.
    assert (length (rjust 4 (str n')) = 4%nat) as H4
      by (apply length_rjust_str; lia).
    assert (current_residue_number (atom_branch st2 (rewrite_field n' line)) = n'
            ∧ current_residue (atom_branch st2 (rewrite_field n' line))
              = Some (rjust 4 (str n'))) as [Hn2 Hc2].
    { split; [|by rewrite atom_branch_residue, residue_field_rewrite_field].
      rewrite atom_branch_number, residue_field_rewrite_field by done.
      unfold n'. rewrite atom_branch_number, Hnum.
      destruct Hcur as [[Hc1 Hc2]|[Hc1 Hc2]]; rewrite Hc2.
      - rewrite Hc1. by rewrite !bool_decide_eq_true_2.
      - destruct (decide (Some (residue_field line) = current_residue st))
          as [Heq|Hne].
        + rewrite (bool_decide_eq_false_2 (Some (residue_field line) ≠ _))
            by naive_solver.
          by rewrite bool_decide_eq_false_2 by naive_solver.
        + rewrite (bool_decide_eq_true_2 (Some (residue_field line) ≠ _))
            by done.
          rewrite bool_decide_eq_true_2; [done|].
          intros [= Heq%rjust_str_inj]. lia. }
    rewrite Hn2. split; [by apply rewrite_field_idem|].
    split; [done|]. right. split; [|done].
    by rewrite atom_branch_residue.
  - destruct (startswith (chars "TER") line) eqn:Ht.
    + destruct Hwide as [Hlen _]; [unfold record_line; by rewrite Ha, Ht|].
      rewrite (step_ter st2) by done. revert Hkt Hhi Hmono.
      rewrite step_ter by done. cbn [fst snd]. rewrite ter_branch_number.
      intros Hkt Hhi Hmono.
      assert (length (rjust 4 (str (current_residue_number st))) = 4%nat) as H4
        by (apply length_rjust_str; lia).
      rewrite Hnum. split; [by apply rewrite_field_idem|].
      split; [by rewrite !ter_branch_number|]. right.
      rewrite !ter_branch_residue, ter_branch_number.
      by rewrite residue_field_rewrite_field.
    + assert (record_line line = false) as Hrec
        by (unfold record_line; by rewrite Ha, Ht).
      rewrite !(step_other _ line) by done. cbn [fst snd].
      split; [done|by split].
Qed.

Lemma run_in_step st st2 lines :
  Forall (λ l, record_line l = true → wide_line l) lines →
  0 ≤ current_residue_number st →
  current_residue_number (run st lines).1 ≤ 9999 →
  in_step st st2 →
  (run st2 (run st lines).2).2 = (run st lines).2.
Proof.
  revert st st2. induction lines as [|line rest IH]; intros st st2; [done|].
  intros [Hline Hrest]%Forall_cons Hlo. rewrite !run_cons. cbn [fst snd].
  intros Hhi Hstep. rewrite run_cons. cbn [fst snd].
  pose proof (step_number_mono st line) as Hmono.
  pose proof (run_number_mono (step st line).1 rest) as Hmono'.
  destruct (step_in_step st st2 line Hline Hlo) as [Hout Hstep']; [lia|done|].
  rewrite Hout. f_equal. apply IH; [done|lia|done|done].
Qed.

Lemma in_step_initial : in_step initial initial.
Proof. split; [done|]. by left. Qed.

(** C5, for files of fixed width. When every ATOM and TER line of the
    file has at least 26 characters before its terminator and the
    counter ends at 9999 or less, renumbering the renumbered file gives
    the renumbered file again. *)
Theorem renumbering_idempotent_fixed_width content :
  fixed_width (readlines content) →
  renumber_file (renumber_file content) = renumber_file content.
Proof.
  intros [Hwide Hfin]. unfold renumber_file, renumber_lines.
  rewrite readlines_writelines
    by (apply run_line_list; [apply readlines_line_list|done]).
  f_equal. by apply run_in_step; [|done| |apply in_step_initial].
Qed.

(** *** The file as it is stored *)






(** *** The sample files *)

Import Samples.

(** C2 as stated fails where a TER record introduces an identifier:
    residues 5 and 6 both come out as 1. *)
Lemma ter_ahead_merges_residues :
  atom_fields ter_ahead = [chars "   5"; chars "   6"]
  ∧ atom_numbers initial ter_ahead = [1; 1]
  ∧ renumber_lines ter_ahead
    = [atom_line "   1"; ter_line "   1"; atom_line "   1"].
Proof. by vm_compute. Qed.

Lemma renumbered_atoms_contiguous_witness :
  ter_agree initial chain_5_9_12 = true
  ∧ atom_numbers initial chain_5_9_12 = [1; 1; 1; 2; 2; 3].
Proof.
  assert (ter_agree initial chain_5_9_12 = true) as H by reflexivity.
  split; [exact H|].
  destruct (renumbered_atoms_contiguous chain_5_9_12) as (_ & _ & _ & _ & Hter).
  destruct (Hter H) as (_ & _ & _ & Hex).
  apply Hex. reflexivity.
Defined.



Lemma ter_line_updates_identifier_only_witness :
  startswith (chars "TER") (ter_line "   6") = true
  ∧ current_residue_number
      (step (State (Some (chars "   5")) 1) (ter_line "   6")).1 = 1
  ∧ (step (State (Some (chars "   5")) 1) (ter_line "   6")).2
    = take 22 (ter_line "   6") ++ rjust 4 (str 1) ++ drop 26 (ter_line "   6").
Proof.
  assert (startswith (chars "TER") (ter_line "   6") = true) as H by reflexivity.
  split; [exact H|].
  destruct (ter_line_updates_identifier_only
              (State (Some (chars "   5")) 1) (ter_line "   6") H)
    as (Hn & _ & _ & Hout).
  split; [exact Hn|exact Hout].
Defined.

(** C5 as stated fails on a bare TER record: every pass appends the
    counter text once more. *)
Lemma bare_ter_not_idempotent :
  renumber_file bare_ter = bare_ter ++ chars "   0"
  ∧ renumber_file (renumber_file bare_ter) = bare_ter ++ chars "   0   0"
  ∧ renumber_file (renumber_file bare_ter) ≠ renumber_file bare_ter.
Proof. by vm_compute. Qed.

Lemma renumbering_idempotent_fixed_width_witness :
  fixed_width (readlines (writelines chain_5_9_12))
  ∧ renumber_file (renumber_file (writelines chain_5_9_12))
    = renumber_file (writelines chain_5_9_12).
Proof.
  assert (fixed_width (readlines (writelines chain_5_9_12))) as H.
  { apply (bool_decide_unpack _). vm_compute. exact I. }
  split; [exact H|].
  apply (renumbering_idempotent_fixed_width _ H).
Defined.

(** C8 as stated fails when the unparseable field repeats: the second
    line leaves the counter where it is. *)
Lemma unparseable_field_repeated :
  startswith (chars "ATOM") (atom_line "abcd") = true
  ∧ residue_field (atom_line "abcd") = chars "abcd"
  ∧ int_parseable (residue_field (atom_line "abcd")) = false
  ∧ current_residue_number (step initial (atom_line "abcd")).1 = 1
  ∧ current_residue_number
      (step (step initial (atom_line "abcd")).1 (atom_line "abcd")).1 = 1.
Proof. by vm_compute. Qed.

Lemma atom_line_field_compared_as_text_witness :
  startswith (chars "ATOM") (atom_line "abcd") = true
  ∧ ∃ st' out,
      step initial (atom_line "abcd") = (st', out)
      ∧ current_residue st' = Some (chars "abcd")
      ∧ current_residue_number st' = 1.
Proof.
  assert (startswith (chars "ATOM") (atom_line "abcd") = true) as H
    by reflexivity.
  split; [exact H|].
  destruct (atom_line_field_compared_as_text initial (atom_line "abcd") H)
    as (st' & out & Hstep & Hcur & Hinc & _ & _).
  exists st', out. split_and!; [exact Hstep|exact Hcur|].
  apply Hinc. discriminate.
Defined.

(** C10 as stated fails on a line of 23 to 25 characters: its tail,
    terminator included, is cut away, not kept before the text. *)
Lemma cut_atom_line_loses_tail :
  startswith (chars "ATOM") cut_atom_line = true
  ∧ length cut_atom_line = 25%nat
  ∧ (step initial cut_atom_line).2
    = chars "ATOM      1  N   ALA A" ++ chars "   1"
  ∧ (step initial cut_atom_line).2 ≠ cut_atom_line ++ chars "   1".
Proof. by vm_compute. Qed.

Lemma short_record_line_witness :
  record_line bare_ter = true
  ∧ (length bare_ter < 26)%nat
  ∧ (step initial bare_ter).2 = bare_ter ++ rjust 4 (str 0)
  ∧ length (step initial bare_ter).2 ≠ length bare_ter.
Proof.
  assert (record_line bare_ter = true) as Hrec by reflexivity.
  assert (length bare_ter < 26)%nat as Hlen by (vm_compute; lia).
  split; [exact Hrec|]. split; [exact Hlen|].
  destruct (short_record_line initial bare_ter Hrec Hlen)
    as (_ & Happ & _ & Hne).
  split; [|exact Hne].
  apply Happ. vm_compute. lia.
Defined.

End RenumberFacts.

(** ** The window loops *)

Module SegmentFacts.
Import Text Segment.

Section Script.

Variable os_path_join : text → text → text.
Variable structure : Structure.
Variable file_prefix : text.

Local Abbreviation file_save := (file_save os_path_join file_prefix).
Local Abbreviation window := (window os_path_join file_prefix).
Local Abbreviation write_window := (write_window os_path_join file_prefix).
Local Abbreviation write_window_once :=
  (write_window_once os_path_join file_prefix).
Local Abbreviation residue_loop := (residue_loop os_path_join file_prefix).
Local Abbreviation residue_loop_once :=
  (residue_loop_once os_path_join file_prefix).
Local Abbreviation chain_loop := (chain_loop os_path_join file_prefix).
Local Abbreviation chain_loop_once := (chain_loop_once os_path_join file_prefix).
Local Abbreviation model_loop := (model_loop os_path_join file_prefix).
Local Abbreviation model_loop_once := (model_loop_once os_path_join file_prefix).
Local Abbreviation io_save := (io_save structure).
Local Abbreviation run_saves := (run_saves structure).

Lemma range_8 start : range start (start + 8) = seqZ start 8.
Proof. unfold range. f_equal. lia. Qed.

Lemma write_window_replicate cid start :
  write_window cid start = replicate 8 (window cid start).
Proof.
  unfold Segment.write_window. rewrite range_8.
  by rewrite (const_fmap _ _ (window cid start)).
Qed.

Lemma residue_loop_cons cid len r rest start :
  residue_loop cid len (r :: rest) start =
    if bool_decide (start + 1 + 8 > len) then (start + 1, [])
    else ((residue_loop cid len rest (start + 1)).1,
          write_window cid (start + 1)
            ++ (residue_loop cid len rest (start + 1)).2).
Proof.
  cbn [Segment.residue_loop]. case_bool_decide; [done|].
  by destruct (residue_loop cid len rest (start + 1)).
Qed.

Lemma residue_loop_once_cons cid len r rest start :
  residue_loop_once cid len (r :: rest) start =
    if bool_decide (start + 1 + 8 > len) then (start + 1, [])
    else ((residue_loop_once cid len rest (start + 1)).1,
          write_window_once cid (start + 1)
            ++ (residue_loop_once cid len rest (start + 1)).2).
Proof.
  cbn [Segment.residue_loop_once]. case_bool_decide; [done|].
  by destruct (residue_loop_once cid len rest (start + 1)).
Qed.

Lemma chain_loop_cons chain rest start :
  let len := Z.of_nat (length (residues chain)) in
  let r := residue_loop (chain_id chain) len (residues chain) start in
  chain_loop (chain :: rest) start =
    ((chain_loop rest r.1).1, r.2 ++ (chain_loop rest r.1).2).
Proof.
  cbn [Segment.chain_loop]. cbv zeta.
  destruct (residue_loop _ _ _ _) as [s1 e1]. cbn [fst snd].
  by destruct (chain_loop rest s1).
Qed.

Lemma chain_loop_once_cons chain rest start :
  let len := Z.of_nat (length (residues chain)) in
  let r := residue_loop_once (chain_id chain) len (residues chain) start in
  chain_loop_once (chain :: rest) start =
    ((chain_loop_once rest r.1).1, r.2 ++ (chain_loop_once rest r.1).2).
Proof.
  cbn [Segment.chain_loop_once]. cbv zeta.
  destruct (residue_loop_once _ _ _ _) as [s1 e1]. cbn [fst snd].
  by destruct (chain_loop_once rest s1).
Qed.

Lemma model_loop_cons model rest start :
  let r := chain_loop (chains model) start in
  model_loop (model :: rest) start =
    ((model_loop rest r.1).1, r.2 ++ (model_loop rest r.1).2).
Proof.
  cbn [Segment.model_loop]. cbv zeta.
  destruct (chain_loop _ _) as [s1 e1]. cbn [fst snd].
  by destruct (model_loop rest s1).
Qed.

Lemma model_loop_once_cons model rest start :
  let r := chain_loop_once (chains model) start in
  model_loop_once (model :: rest) start =
    ((model_loop_once rest r.1).1, r.2 ++ (model_loop_once rest r.1).2).
Proof.
  cbn [Segment.model_loop_once]. cbv zeta.
  destruct (chain_loop_once _ _) as [s1 e1]. cbn [fst snd].
  by destruct (model_loop_once rest s1).
Qed.

(** *** The counter only grows *)

Lemma residue_loop_start_mono cid len rs start :
  start ≤ (residue_loop cid len rs start).1.
Proof.
  revert start. induction rs as [|r rest IH]; intros start; [done|].
  rewrite residue_loop_cons. case_bool_decide; cbn [fst]; [lia|].
  specialize (IH (start + 1)). lia.
Qed.

Lemma chain_loop_start_mono cs start : start ≤ (chain_loop cs start).1.
Proof.
  revert start. induction cs as [|c rest IH]; intros start; [done|].
  rewrite chain_loop_cons. cbn [fst].
  etrans; [|apply IH]. apply residue_loop_start_mono.
Qed.

Lemma model_loop_start_mono ms start : start ≤ (model_loop ms start).1.
Proof.
  revert start. induction ms as [|m rest IH]; intros start; [done|].
  rewrite model_loop_cons. cbn [fst].
  etrans; [|apply IH]. apply chain_loop_start_mono.
Qed.

(** *** Which saves a chain gives rise to *)

Lemma elem_of_residue_loop cid len rs start ev :
  ev ∈ (residue_loop cid len rs start).2 →
  ∃ s, start < s ∧ s + 8 ≤ len ∧ ev = window cid s.
Proof.
  revert start. induction rs as [|r rest IH]; intros start.
  { by intros ?%elem_of_nil. }
  rewrite residue_loop_cons. case_bool_decide as Hbrk; cbn [snd].
  { by intros ?%elem_of_nil. }
  rewrite elem_of_app, write_window_replicate.
  intros [[-> _]%elem_of_replicate|H].
  - exists (start + 1). split_and!; [lia|lia|done].
  - destruct (IH _ H) as (s & ? & ? & ->). exists s. split_and!; [lia|lia|done].
Qed.

Lemma elem_of_chain_loop cs start ev :
  ev ∈ (chain_loop cs start).2 →
  ∃ chain s, chain ∈ cs ∧ start < s
    ∧ s + 8 ≤ Z.of_nat (length (residues chain))
    ∧ ev = window (chain_id chain) s.
Proof.
  revert start. induction cs as [|c rest IH]; intros start.
  { by intros ?%elem_of_nil. }
  rewrite chain_loop_cons. cbn [snd]. rewrite elem_of_app. intros [H|H].
  - apply elem_of_residue_loop in H as (s & ? & ? & ->).
    exists c, s. split_and!; [by left|done..].
  - apply IH in H as (chain & s & ? & ? & ? & ->).
    pose proof (residue_loop_start_mono (chain_id c)
      (Z.of_nat (length (residues c))) (residues c) start).
    exists chain, s. split_and!; [by right|lia|done..].
Qed.

Lemma elem_of_model_loop ms start ev :
  ev ∈ (model_loop ms start).2 →
  ∃ model chain s, model ∈ ms ∧ chain ∈ chains model ∧ start < s
    ∧ s + 8 ≤ Z.of_nat (length (residues chain))
    ∧ ev = window (chain_id chain) s.
Proof.
  revert start. induction ms as [|m rest IH]; intros start.
  { by intros ?%elem_of_nil. }
  rewrite model_loop_cons. cbn [snd]. rewrite elem_of_app. intros [H|H].
  - apply elem_of_chain_loop in H as (chain & s & ? & ? & ? & ->).
    exists m, chain, s. split_and!; [by left|done..].
  - apply IH in H as (model & chain & s & ? & ? & ? & ? & ->).
    pose proof (chain_loop_start_mono (chains m) start).
    exists model, chain, s. split_and!; [by right|done|lia|done..].
Qed.

(** *** The windows of a chain *)

(** The saves of a chain entered with counter [start]: one window for
    every value from [start + 1] on, as long as residues are left and
    the value plus 8 does not pass [len]. *)
Lemma residue_loop_windows cid len rs start :
  (residue_loop cid len rs start).2 =
    seqZ (start + 1) (Z.of_nat (length rs) `min` (len - 8 - start))
      ≫= write_window cid.
Proof.
  revert start. induction rs as [|r rest IH]; intros start.
  { by rewrite seqZ_nil by (simpl; lia). }
  rewrite residue_loop_cons. case_bool_decide as Hbrk; cbn [snd].
  { by rewrite seqZ_nil by lia. }
  rewrite IH, (seqZ_cons (start + 1)) by (cbn [length]; lia).
  cbn [mbind list_bind]. do 3 f_equal; cbn [length]; lia.
Qed.

Lemma residue_loop_final cid len rs start :
  (residue_loop cid len rs start).1 =
    if bool_decide (Z.of_nat (length rs) ≤ 0 `max` (len - 8 - start))
    then start + Z.of_nat (length rs)
    else start + 0 `max` (len - 8 - start) + 1.
Proof.
  revert start. induction rs as [|r rest IH]; intros start.
  { rewrite bool_decide_eq_true_2 by (simpl; lia). simpl. lia. }
  rewrite residue_loop_cons. case_bool_decide as Hbrk; cbn [fst].
  { rewrite bool_decide_eq_false_2 by (cbn [length]; lia). lia. }
  rewrite IH. cbn [length].
  repeat case_bool_decide; lia.
Qed.

(** A chain of at least 9 residues met with the counter at 0, as the
    first chain of a file is, gets the windows 1 to [L - 8]. *)
Lemma first_chain_windows cid rs :
  (9 ≤ length rs)%nat →
  let L := Z.of_nat (length rs) in
  residue_loop cid L rs 0 = (L - 7, seqZ 1 (L - 8) ≫= write_window cid).
Proof.
  intros Hlen L.
  rewrite (surjective_pairing (residue_loop cid L rs 0)).
  rewrite residue_loop_windows, residue_loop_final. f_equal.
  - rewrite bool_decide_eq_false_2 by lia. lia.
  - do 2 f_equal; lia.
Qed.

(** C6. A chain of fewer than 9 residues gives rise to no save at all:
    the loop is left at its first residue, where [start + 8 > length].
    In a chain of any length every save is for a full span
    [start .. start + 8] that ends inside the chain, so the residues of
    the tail never head a window. The counter is not negative when a
    chain is entered ([model_loop_start_mono], [chain_loop_start_mono]). *)
Theorem short_chain_no_window cid rs start :
  0 ≤ start →
  (length rs < 9)%nat →
  let L := Z.of_nat (length rs) in
  (residue_loop cid L rs start).2 = []
  ∧ (rs ≠ [] → (residue_loop cid L rs start).1 = start + 1)
  ∧ (∀ len rs' start' ev,
       ev ∈ (residue_loop cid len rs' start').2 →
       sel_end ev.2 = sel_start ev.2 + 8 ∧ sel_end ev.2 ≤ len).
Proof.
  intros Hstart Hlen L. split_and!.
  - rewrite residue_loop_windows. by rewrite seqZ_nil by lia.
  - intros Hne. destruct rs as [|r rest]; [done|].
    rewrite residue_loop_cons. by rewrite bool_decide_eq_true_2 by lia.
  - intros len rs' start' ev (s & _ & Hs & ->)%elem_of_residue_loop.
    simpl. lia.
Qed.

(** *** Saving a window eight times *)

Lemma run_saves_app fs evs1 evs2 :
  run_saves fs (evs1 ++ evs2) = run_saves (run_saves fs evs1) evs2.
Proof. apply foldl_app. Qed.

Lemma io_save_twice fs ev : io_save (io_save fs ev) ev = io_save fs ev.
Proof. unfold Segment.io_save. apply insert_insert_eq. Qed.

Lemma run_saves_again fs ev n :
  run_saves (io_save fs ev) (replicate n ev) = io_save fs ev.
Proof.
  induction n as [|n IH]; [done|].
  change (run_saves (io_save fs ev) (replicate (S n) ev))
    with (run_saves (io_save (io_save fs ev) ev) (replicate n ev)).
  by rewrite io_save_twice.
Qed.

Lemma run_saves_replicate fs ev n :
  run_saves fs (replicate (S n) ev) = io_save fs ev.
Proof. apply run_saves_again. Qed.

Lemma write_window_single fs cid start :
  run_saves fs (write_window cid start)
  = run_saves fs (write_window_once cid start).
Proof. rewrite write_window_replicate. apply run_saves_replicate. Qed.

Lemma residue_loop_single cid len rs start :
  (residue_loop cid len rs start).1 = (residue_loop_once cid len rs start).1
  ∧ ∀ fs, run_saves fs (residue_loop cid len rs start).2
          = run_saves fs (residue_loop_once cid len rs start).2.
Proof.
  revert start. induction rs as [|r rest IH]; intros start; [done|].
  rewrite residue_loop_cons, residue_loop_once_cons.
  case_bool_decide; [done|]. cbn [fst snd].
  destruct (IH (start + 1)) as [IH1 IH2]. split; [done|]. intros fs.
  by rewrite !run_saves_app, write_window_single, IH2.
Qed.

Lemma chain_loop_single cs start :
  (chain_loop cs start).1 = (chain_loop_once cs start).1
  ∧ ∀ fs, run_saves fs (chain_loop cs start).2
          = run_saves fs (chain_loop_once cs start).2.
Proof.
  revert start. induction cs as [|c rest IH]; intros start; [done|].
  rewrite chain_loop_cons, chain_loop_once_cons. cbn [fst snd].
  destruct (residue_loop_single (chain_id c)
    (Z.of_nat (length (residues c))) (residues c) start) as [R1 R2].
  rewrite <- R1.
  destruct (IH (residue_loop (chain_id c)
    (Z.of_nat (length (residues c))) (residues c) start).1) as [IH1 IH2].
  split; [done|]. intros fs. by rewrite !run_saves_app, R2, IH2.
Qed.

Lemma model_loop_single ms start :
  (model_loop ms start).1 = (model_loop_once ms start).1
  ∧ ∀ fs, run_saves fs (model_loop ms start).2
          = run_saves fs (model_loop_once ms start).2.
Proof.
  revert start. induction ms as [|m rest IH]; intros start; [done|].
  rewrite model_loop_cons, model_loop_once_cons. cbn [fst snd].
  destruct (chain_loop_single (chains m) start) as [R1 R2].
  rewrite <- R1.
  destruct (IH (chain_loop (chains m) start).1) as [IH1 IH2].
  split; [done|]. intros fs. by rewrite !run_saves_app, R2, IH2.
Qed.

(** C7. Saving the window of a start eight times leaves the files as a
    single save leaves them: the path holds the records of the
    selection and no other path is touched. Hence the script and the
    variant that saves every window once end with the same files,
    whatever was there before. *)
Theorem repeated_save_same_as_single fs :
  (∀ cid start,
     run_saves fs (write_window cid start)
       = <[ file_save start :=
              save_records structure
                {| sel_chain_id := cid; sel_start := start;
                   sel_end := start + 8 |} ]> fs
     ∧ run_saves fs (write_window cid start)
       = run_saves fs (write_window_once cid start))
  ∧ split_file_fs os_path_join structure file_prefix fs
    = split_file_once_fs os_path_join structure file_prefix fs.
Proof.
  split.
  - intros cid start. split; [|apply write_window_single].
    by rewrite write_window_single.
  - unfold split_file_fs, split_file_once_fs, split_file.
    apply model_loop_single.
Qed.

(** *** What a saved window holds *)

Lemma elem_of_save_records select rec :
  rec ∈ save_records structure select ↔
  ∃ model chain,
    model ∈ structure ∧ model_id model = 0
    ∧ chain ∈ chains model ∧ chain_id chain = sel_chain_id select
    ∧ rec_chain rec = chain_id chain
    ∧ rec_residue rec ∈ residues chain
    ∧ hetflag (rec_residue rec) = chars " "
    ∧ sel_start select ≤ resseq (rec_residue rec) ≤ sel_end select
    ∧ rec_atom rec ∈ atoms (rec_residue rec)
    ∧ hydrogen_match (atom_name (rec_atom rec)) = false.
Proof.
  unfold save_records. rewrite list_elem_of_bind. split.
  - intros (model & Hrec & [Hm0 Hm]%list_elem_of_filter).
    apply list_elem_of_bind in Hrec as (chain & Hrec & [Hc0 Hc]%list_elem_of_filter).
    apply list_elem_of_bind in Hrec as (r & Hrec & [Hr0 Hr]%list_elem_of_filter).
    apply list_elem_of_bind in Hrec as (a & Hrec & [Ha0 Ha]%list_elem_of_filter).
    apply list_elem_of_singleton in Hrec as ->. cbn.
    exists model, chain.
    apply bool_decide_eq_true in Hm0, Hc0.
    unfold accept_residue in Hr0. case_bool_decide as Hhet; [done|].
    apply bool_decide_eq_true in Hr0. apply negb_true_iff in Ha0.
    split_and!; try done; lia.
  - intros (model & chain & Hm & Hm0 & Hc & Hc0 & Hrc & Hr & Hhet & Hseq & Ha & Hh).
    exists model. split; [|apply list_elem_of_filter; split; [|done];
                           by apply bool_decide_eq_true].
    apply list_elem_of_bind. exists chain.
    split; [|apply list_elem_of_filter; split; [|done];
             by apply bool_decide_eq_true].
    apply list_elem_of_bind. exists (rec_residue rec). split.
    + apply list_elem_of_bind. exists (rec_atom rec). split.
      * apply list_elem_of_singleton. destruct rec; cbn in *. by subst.
      * apply list_elem_of_filter. split; [|done].
        unfold accept_atom. by rewrite Hh.
    + apply list_elem_of_filter. split; [|done].
      unfold accept_residue.
      rewrite bool_decide_eq_false_2 by (intros Hne; by apply Hne).
      by apply bool_decide_eq_true.
Qed.

(** C9, as far as it goes. Every save of the script is for a selection
    [start .. start + 8] on the loop counter, under the path of that
    counter, and the file then holds the records of that selection.
    Those are the atoms, hydrogens left out, of the residues of model 0
    in the chain of that identifier that are not hetero residues and
    whose sequence number lies between [start] and [start + 8]. So a
    residue whose sequence number is outside this span is not in the
    file, whatever its ordinal in the chain. *)
Theorem window_selected_by_sequence_number path select :
  (path, select) ∈ split_file os_path_join structure file_prefix →
  ∃ start,
    0 < start
    ∧ path = file_save start
    ∧ sel_start select = start ∧ sel_end select = start + 8
    ∧ (∀ fs, io_save fs (path, select) !! path
             = Some (save_records structure select))
    ∧ (∀ rec, rec ∈ save_records structure select ↔
         ∃ model chain,
           model ∈ structure ∧ model_id model = 0
           ∧ chain ∈ chains model ∧ chain_id chain = sel_chain_id select
           ∧ rec_chain rec = chain_id chain
           ∧ rec_residue rec ∈ residues chain
           ∧ hetflag (rec_residue rec) = chars " "
           ∧ start ≤ resseq (rec_residue rec) ≤ start + 8
           ∧ rec_atom rec ∈ atoms (rec_residue rec)
           ∧ hydrogen_match (atom_name (rec_atom rec)) = false)
    ∧ (∀ residue,
         ¬ (start ≤ resseq residue ≤ start + 8) →
         ∀ rec, rec ∈ save_records structure select →
                rec_residue rec ≠ residue).
Proof.
  unfold split_file.
  intros (model & chain & s & _ & _ & Hs & _ & [= -> ->])%elem_of_model_loop.
  exists s. cbn [sel_start sel_end sel_chain_id].
  split_and!; try done.
  - intros fs. unfold Segment.io_save. cbn [fst snd]. apply lookup_insert_eq.
  - intros rec. by rewrite elem_of_save_records.
  - intros residue Hout rec Hrec%elem_of_save_records <-.
    destruct Hrec as (? & ? & ? & ? & ? & ? & ? & ? & ? & ? & ?). done.
Qed.

End Script.

(** *** The sample structures *)

Import Samples.

(** C1 on a file with two chains. Chains A and B have 10 residues each;
    the script saves the windows 1 and 2 of chain A and nothing for
    chain B, which it enters with the counter at 3. *)
Theorem second_chain_gets_no_window os_path_join file_prefix :
  split_file os_path_join two_chains file_prefix
  = write_window os_path_join file_prefix (chars "A") 1
    ++ write_window os_path_join file_prefix (chars "A") 2.
Proof. reflexivity. Qed.

Lemma short_chain_no_window_witness :
  0 ≤ 0
  ∧ (length (residues short_chain) < 9)%nat
  ∧ (residue_loop posix_join (chars "1abc") (chars "A") 8
       (residues short_chain) 0).2 = []
  ∧ (residue_loop posix_join (chars "1abc") (chars "A") 8
       (residues short_chain) 0).1 = 1.
Proof.
  assert (0 ≤ 0) as H0 by lia.
  assert (length (residues short_chain) < 9)%nat as Hlen by (vm_compute; lia).
  split; [exact H0|]. split; [exact Hlen|].
  destruct (short_chain_no_window posix_join (chars "1abc") (chars "A")
              (residues short_chain) 0 H0 Hlen) as (Hnone & Hfinal & _).
  split; [exact Hnone|]. apply Hfinal. discriminate.
Defined.

(** C9 as stated fails on a chain numbered 1 to 9 and 11: the numbering
    has a gap, and the file of start 1 holds the 9 residues at the
    ordinals 1 to 9. *)
Lemma gapped_chain_first_window :
  resseq <$> residues gapped ≠ seqZ 1 10
  ∧ split_file_fs posix_join gapped_chain (chars "1abc") ∅
      !! file_save posix_join (chars "1abc") 1
    = Some ((λ r, {| rec_chain := chars "A"; rec_residue := r;
                     rec_atom := alpha_carbon |})
              <$> take 9 (residues gapped)).
Proof. by vm_compute. Qed.

Lemma window_selected_by_sequence_number_witness :
  (file_save posix_join (chars "1abc") 2,
   {| sel_chain_id := chars "A"; sel_start := 2; sel_end := 10 |})
    ∈ split_file posix_join gapped_chain (chars "1abc")
  ∧ ∀ rec,
      rec ∈ save_records gapped_chain
              {| sel_chain_id := chars "A"; sel_start := 2; sel_end := 10 |} →
      rec_residue rec ≠ residue_numbered 11.
Proof.
  assert ((file_save posix_join (chars "1abc") 2,
           {| sel_chain_id := chars "A"; sel_start := 2; sel_end := 10 |})
            ∈ split_file posix_join gapped_chain (chars "1abc")) as H.
  { apply (bool_decide_unpack _). vm_compute. exact I. }
  split; [exact H|].
  destruct (window_selected_by_sequence_number posix_join gapped_chain
              (chars "1abc") _ _ H)
    as (start & _ & _ & Hstart & _ & _ & _ & Hout).
  simpl in Hstart. subst start.
  apply Hout. simpl. lia.
Defined.

End SegmentFacts.

(** ** More on the renumbering loop *)

Module RenumberMore.
Import Text TextFacts Renumber RenumberFacts Views.

Lemma record_line_step st line :
  record_line (step st line).2 = record_line line.
Proof.
  unfold record_line. by destruct (step_keeps_kind st line) as [-> ->].
Qed.

Lemma record_lines_cons line rest :
  record_lines (line :: rest) =
    if record_line line then line :: record_lines rest else record_lines rest.
Proof.
  unfold record_lines. destruct (record_line line) eqn:Hrec.
  - by rewrite filter_cons_True.
  - rewrite filter_cons_False; [done|congruence].
Qed.

Lemma record_line_atom line :
  startswith (chars "ATOM") line = true → record_line line = true.
Proof. unfold record_line. by intros ->. Qed.

Lemma run_record_lines st lines :
  (run st (record_lines lines)).1 = (run st lines).1
  ∧ (run st (record_lines lines)).2 = record_lines (run st lines).2
  ∧ atom_numbers st (record_lines lines) = atom_numbers st lines.
Proof.
  revert st. induction lines as [|line rest IH]; intros st; [done|].
  rewrite record_lines_cons, (run_cons st line rest). cbn [fst snd atom_numbers].
  rewrite record_lines_cons, record_line_step.
  destruct (record_line line) eqn:Hrec.
  - rewrite run_cons. cbn [fst snd atom_numbers].
    destruct (IH (step st line).1) as (-> & -> & ->). done.
  - rewrite step_other by done. cbn [fst snd].
    destruct (IH st) as (-> & -> & ->). split_and!; [done..|].
    destruct (startswith (chars "ATOM") line) eqn:Ha; [|done].
    apply record_line_atom in Ha. congruence.
Qed.

(** X1. Lines that are neither ATOM nor TER lines (HETATM, REMARK, END
    and the like) have no part in the numbering: the ATOM and TER lines
    of the result are what the loop makes of the ATOM and TER lines
    alone, with the same numbers and the same final counter. *)
Theorem other_lines_do_not_count lines :
  record_lines (renumber_lines lines) = renumber_lines (record_lines lines)
  ∧ atom_numbers initial lines = atom_numbers initial (record_lines lines)
  ∧ final_number lines = final_number (record_lines lines).
Proof.
  unfold renumber_lines, final_number.
  destruct (run_record_lines initial lines) as (H1 & H2 & H3).
  by rewrite H1, H2, H3.
Qed.

Lemma run_no_record st lines :
  Forall (λ l, record_line l = false) lines → run st lines = (st, lines).
Proof.
  induction 1 as [|line rest Hline Hrest IH]; [done|].
  rewrite run_cons, step_other by done. cbn [fst snd]. by rewrite IH.
Qed.

(** X2. A file without any ATOM or TER line goes through the script
    with nothing but its line ends touched: what is stored afterwards is
    the text as it was read, every line end a line feed, written with
    [os.linesep] for each of them. So a file that has its line ends in
    the form of the platform, [os.linesep] at every line end and no
    carriage return elsewhere, is stored again character for character;
    on POSIX that is every file without a carriage return. *)
Theorem file_without_records_keeps_text linesep stored :
  Forall (λ l, record_line l = false)
    (readlines (universal_newlines stored)) →
  renumber_stored linesep stored
  = write_newlines linesep (universal_newlines stored)
  ∧ (∀ content,
       os_linesep linesep → carriage_return ∉ content →
       stored = write_newlines linesep content →
       renumber_stored linesep stored = stored)
  ∧ (linesep = [newline] → carriage_return ∉ stored →
     renumber_stored linesep stored = stored).
Proof.
  intros H.
  assert (renumber_stored linesep stored
          = write_newlines linesep (universal_newlines stored)) as Heq.
  { unfold renumber_stored, renumber_file, renumber_lines.
    rewrite run_no_record by done. cbn [snd].
    by rewrite writelines_readlines. }
  split; [done|]. rewrite Heq. split.
  - intros content Hsep Hclean ->. by rewrite universal_newlines_write.
  - intros -> Hclean.
    by rewrite write_newlines_posix, universal_newlines_id.
Qed.

(** A carriage return on its own is a line end on reading and comes
    back as a line feed: such a file is not stored as it was. *)
Lemma lone_carriage_return_rewritten :
  renumber_stored [newline]
    (chars "REMARK" ++ [carriage_return] ++ chars "END" ++ [newline])
  = chars "REMARK" ++ [newline] ++ chars "END" ++ [newline].
Proof. reflexivity. Qed.

Lemma file_without_records_keeps_text_witness :
  Forall (λ l, record_line l = false)
    (readlines (universal_newlines
       (chars "HETATM" ++ [carriage_return; newline] ++ chars "END")))
  ∧ os_linesep [carriage_return; newline]
  ∧ (carriage_return ∉ chars "HETATM" ++ [newline] ++ chars "END")
  ∧ renumber_stored [carriage_return; newline]
      (chars "HETATM" ++ [carriage_return; newline] ++ chars "END")
    = chars "HETATM" ++ [carriage_return; newline] ++ chars "END".
Proof.
  assert (Forall (λ l, record_line l = false)
            (readlines (universal_newlines
               (chars "HETATM" ++ [carriage_return; newline] ++ chars "END"))))
    as H.
  { apply (bool_decide_unpack _). vm_compute. exact I. }
  assert (os_linesep [carriage_return; newline]) as Hsep by (by right).
  assert (carriage_return ∉ chars "HETATM" ++ [newline] ++ chars "END")
    as Hclean.
  { apply (bool_decide_unpack _). vm_compute. exact I. }
  split; [exact H|]. split; [exact Hsep|]. split; [exact Hclean|].
  destruct (file_without_records_keeps_text [carriage_return; newline] _ H)
    as (_ & Hplatform & _).
  apply (Hplatform (chars "HETATM" ++ [newline] ++ chars "END") Hsep Hclean).
  reflexivity.
Defined.

Lemma run_number_upper st lines :
  current_residue_number (run st lines).1
  ≤ current_residue_number st + Z.of_nat (length (atom_lines lines)).
Proof.
  revert st. induction lines as [|line rest IH]; intros st; [simpl; lia|].
  rewrite run_cons, atom_lines_cons. cbn [fst].
  specialize (IH (step st line).1).
  destruct (startswith (chars "ATOM") line) eqn:Ha.
  - revert IH. rewrite step_atom by done. cbn [fst length].
    rewrite atom_branch_number. case_bool_decide; lia.
  - rewrite step_number_not_atom in IH by done. lia.
Qed.

Lemma atom_numbers_range st lines :
  Forall (λ n, current_residue_number st ≤ n
               ≤ current_residue_number (run st lines).1)
    (atom_numbers st lines).
Proof.
  revert st. induction lines as [|line rest IH]; intros st; [constructor|].
  rewrite run_cons. cbn [fst atom_numbers].
  pose proof (step_number_mono st line) as Hmono.
  pose proof (run_number_mono (step st line).1 rest) as Hmono'.
  assert (Forall (λ n, current_residue_number st ≤ n
                       ≤ current_residue_number (run (step st line).1 rest).1)
            (atom_numbers (step st line).1 rest)) as Hrest.
  { eapply Forall_impl; [apply IH|]. simpl. intros n Hn. lia. }
  destruct (startswith (chars "ATOM") line); [|done].
  constructor; [lia|done].
Qed.

(** X3. The counter ends between 0 and the number of ATOM lines, and
    every number written into an ATOM line lies between 0 and the final
    counter. So a file of at most 9999 ATOM lines whose ATOM and TER
    lines have at least 26 characters before the terminator is of fixed
    width. *)
Theorem counter_bounded_by_atom_lines lines :
  0 ≤ final_number lines ≤ Z.of_nat (length (atom_lines lines))
  ∧ Forall (λ n, 0 ≤ n ≤ final_number lines) (atom_numbers initial lines)
  ∧ (Z.of_nat (length (atom_lines lines)) ≤ 9999 →
     Forall (λ l, record_line l = true → wide_line l) lines →
     fixed_width lines).
Proof.
  unfold final_number.
  pose proof (run_number_mono initial lines) as Hlo.
  pose proof (run_number_upper initial lines) as Hhi.
  rewrite initial_number in Hlo, Hhi.
  split_and!; [lia|lia|apply (atom_numbers_range initial lines)|].
  intros Hcount Hwide. split; [done|]. unfold final_number. lia.
Qed.

Lemma counter_bounded_by_atom_lines_witness :
  Z.of_nat (length (atom_lines Samples.chain_5_9_12)) ≤ 9999
  ∧ Forall (λ l, record_line l = true → wide_line l) Samples.chain_5_9_12
  ∧ fixed_width Samples.chain_5_9_12.
Proof.
  assert (Z.of_nat (length (atom_lines Samples.chain_5_9_12)) ≤ 9999) as Hc
    by (vm_compute; discriminate).
  assert (Forall (λ l, record_line l = true → wide_line l)
            Samples.chain_5_9_12) as Hw.
  { apply (bool_decide_unpack _). vm_compute. exact I. }
  split; [exact Hc|]. split; [exact Hw|].
  destruct (counter_bounded_by_atom_lines Samples.chain_5_9_12)
    as (_ & _ & Hfw).
  exact (Hfw Hc Hw).
Defined.

(** *** What the numbers depend on *)

Lemma run_written_numbers st lines :
  (run st lines).2 = zip_with with_number (written_numbers st lines) lines.
Proof.
  revert st. induction lines as [|line rest IH]; intros st; [done|].
  rewrite run_cons. cbn [fst snd written_numbers zip_with]. rewrite IH. f_equal.
  destruct (record_line line) eqn:Hrec.
  - by rewrite step_record.
  - by rewrite step_other.
Qed.

Lemma step_same_columns st line line' :
  same_columns line line' → (step st line).1 = (step st line').1.
Proof.
  intros (Ha & Ht & Hf).
  destruct (startswith (chars "ATOM") line) eqn:Ha1.
  - rewrite !step_atom by done. cbn [fst]. unfold atom_branch.
    rewrite Hf; [done|]. by apply record_line_atom.
  - destruct (startswith (chars "TER") line) eqn:Ht1.
    + rewrite !step_ter by done. cbn [fst]. unfold ter_branch.
      rewrite Hf; [done|]. unfold record_line. by rewrite Ha1, Ht1.
    + rewrite !step_other; [done|unfold record_line..].
      * by rewrite <- Ha, <- Ht.
      * by rewrite Ha1, Ht1.
Qed.

Lemma same_columns_record line line' :
  same_columns line line' → record_line line = record_line line'.
Proof. intros (Ha & Ht & _). unfold record_line. by rewrite Ha, Ht. Qed.

Lemma written_numbers_same_columns st lines lines' :
  Forall2 same_columns lines lines' →
  written_numbers st lines = written_numbers st lines'
  ∧ atom_numbers st lines = atom_numbers st lines'
  ∧ (run st lines).1 = (run st lines').1.
Proof.
  intros H. revert st.
  induction H as [|line line' rest rest' Hline Hrest IH]; intros st; [done|].
  rewrite !run_cons. cbn [fst written_numbers atom_numbers].
  rewrite <- (step_same_columns st line line' Hline).
  rewrite <- (same_columns_record line line' Hline).
  destruct Hline as (<- & _ & _).
  destruct (IH (step st line).1) as (-> & -> & ->). done.
Qed.

(** X4. The loop looks at nothing but the first characters of a line
    and its columns 23 to 26. Two files whose lines agree, one by one,
    on being ATOM lines, on being TER lines and on those four columns
    get the same number written into every line and end with the same
    counter, whatever the chain identifier, the insertion code or any
    other column says; each result is the file's own lines with those
    numbers written in. *)
Theorem numbers_depend_on_kind_and_field lines lines' :
  Forall2 same_columns lines lines' →
  written_numbers initial lines = written_numbers initial lines'
  ∧ atom_numbers initial lines = atom_numbers initial lines'
  ∧ final_number lines = final_number lines'
  ∧ renumber_lines lines
    = zip_with with_number (written_numbers initial lines) lines
  ∧ renumber_lines lines'
    = zip_with with_number (written_numbers initial lines) lines'.
Proof.
  intros H. unfold final_number, renumber_lines.
  destruct (written_numbers_same_columns initial lines lines' H)
    as (Hw & Ha & Hs).
  rewrite !run_written_numbers, Hw, Ha, Hs. done.
Qed.

Lemma numbers_depend_on_kind_and_field_witness :
  Forall2 same_columns
    [Samples.atom_line "   5"; Samples.atom_line "   5"]
    [Samples.atom_line "   5"; Samples.atom_line_b "   5"]
  ∧ atom_numbers initial
      [Samples.atom_line "   5"; Samples.atom_line_b "   5"] = [1; 1].
Proof.
  assert (Forall2 same_columns
            [Samples.atom_line "   5"; Samples.atom_line "   5"]
            [Samples.atom_line "   5"; Samples.atom_line_b "   5"]) as H.
  { repeat constructor; intros; reflexivity. }
  split; [exact H|].
  destruct (numbers_depend_on_kind_and_field _ _ H) as (_ & Hnum & _).
  rewrite <- Hnum. reflexivity.
Defined.

(** X5. When every ATOM and TER line has at least 26 characters before
    its terminator, the rewritten file splits into lines exactly as the
    loop left them: no line is merged with the next and none is cut in
    two, so the result has as many lines as the input. *)
Theorem line_structure_preserved content :
  Forall (λ l, record_line l = true → wide_line l) (readlines content) →
  readlines (renumber_file content) = renumber_lines (readlines content)
  ∧ length (readlines (renumber_file content)) = length (readlines content).
Proof.
  intros Hwide. unfold renumber_file, renumber_lines.
  rewrite readlines_writelines
    by (apply run_line_list; [apply readlines_line_list|done]).
  split; [done|apply length_run].
Qed.

Lemma line_structure_preserved_witness :
  Forall (λ l, record_line l = true → wide_line l)
    (readlines (writelines Samples.ter_ahead))
  ∧ length (readlines (renumber_file (writelines Samples.ter_ahead)))
    = length (readlines (writelines Samples.ter_ahead)).
Proof.
  assert (Forall (λ l, record_line l = true → wide_line l)
            (readlines (writelines Samples.ter_ahead))) as H.
  { apply (bool_decide_unpack _). vm_compute. exact I. }
  split; [exact H|].
  apply (line_structure_preserved _ H).
Defined.

(** *** The number of a TER line *)

Lemma run_app st lines1 lines2 :
  run st (lines1 ++ lines2) =
    ((run (run st lines1).1 lines2).1,
     (run st lines1).2 ++ (run (run st lines1).1 lines2).2).
Proof.
  revert st. induction lines1 as [|line rest IH]; intros st.
  - simpl. by destruct (run st lines2).
  - rewrite <- app_comm_cons, !run_cons, IH. done.
Qed.

Lemma run_number_last_atom st lines :
  current_residue_number (run st lines).1
  = default (current_residue_number st) (last (atom_numbers st lines)).
Proof.
  revert st. induction lines as [|line rest IH]; intros st; [done|].
  rewrite run_cons. cbn [fst atom_numbers]. rewrite IH.
  destruct (startswith (chars "ATOM") line) eqn:Ha.
  - rewrite last_cons. by destruct (last (atom_numbers _ rest)).
  - by rewrite step_number_not_atom.
Qed.

(** X6. A TER line is written with the number of the last ATOM line
    before it, and with 0 when no ATOM line comes before it. *)
Theorem ter_line_takes_last_atom_number before line after :
  startswith (chars "TER") line = true →
  renumber_lines (before ++ line :: after) !! length before
  = Some (rewrite_field
            (default 0 (last (atom_numbers initial before))) line).
Proof.
  intros Hter. unfold renumber_lines.
  rewrite run_app, run_cons. cbn [fst snd].
  rewrite lookup_app_r by (by rewrite length_run).
  rewrite length_run, Nat.sub_diag. cbn [lookup list_lookup].
  rewrite step_ter by done. cbn [snd].
  by rewrite run_number_last_atom.
Qed.

Lemma ter_line_takes_last_atom_number_witness :
  startswith (chars "TER") (Samples.ter_line "   6") = true
  ∧ renumber_lines
      ([Samples.atom_line "   5"; Samples.atom_line "   7"]
         ++ Samples.ter_line "   6" :: [])
      !! 2%nat
    = Some (rewrite_field 2 (Samples.ter_line "   6")).
Proof.
  assert (startswith (chars "TER") (Samples.ter_line "   6") = true) as H
    by reflexivity.
  split; [exact H|].
  apply (ter_line_takes_last_atom_number
           [Samples.atom_line "   5"; Samples.atom_line "   7"]
           (Samples.ter_line "   6") [] H).
Defined.

(** *** Counters of more than four digits *)

Lemma length_string_of_uint u :
  length (chars (NilEmpty.string_of_uint u)) = Decimal.nb_digits u.
Proof. induction u; simpl; by f_equal. Qed.

Lemma of_uint_acc_bound u acc :
  Z.pos (Pos.of_uint_acc u acc)
  < (Z.pos acc + 1) * 10 ^ Z.of_nat (Decimal.nb_digits u).
Proof.
  revert acc. induction u as [|u IH|u IH|u IH|u IH|u IH|u IH|u IH|u IH|u IH|u IH];
    intros acc; cbn [Pos.of_uint_acc Decimal.nb_digits];
    [simpl; lia|..];
    rewrite Nat2Z.inj_succ, Z.pow_succ_r by lia;
    (eapply Z.lt_le_trans; [apply IH|]);
    assert (0 < 10 ^ Z.of_nat (Decimal.nb_digits u)) by (apply Z.pow_pos_nonneg; lia);
    nia.
Qed.

Lemma of_uint_bound u :
  Z.of_N (Pos.of_uint u) < 10 ^ Z.of_nat (Decimal.nb_digits u).
Proof.
  induction u as [|u IH|u IH|u IH|u IH|u IH|u IH|u IH|u IH|u IH|u IH];
    cbn [Pos.of_uint Decimal.nb_digits];
    [simpl; lia|..];
    rewrite Nat2Z.inj_succ, Z.pow_succ_r by lia;
    assert (0 < 10 ^ Z.of_nat (Decimal.nb_digits u)) by (apply Z.pow_pos_nonneg; lia);
    [lia|..];
    (pose proof (of_uint_acc_bound u 1);
     pose proof (of_uint_acc_bound u 2); pose proof (of_uint_acc_bound u 3);
     pose proof (of_uint_acc_bound u 4); pose proof (of_uint_acc_bound u 5);
     pose proof (of_uint_acc_bound u 6); pose proof (of_uint_acc_bound u 7);
     pose proof (of_uint_acc_bound u 8); pose proof (of_uint_acc_bound u 9);
     cbn [Z.of_N]; lia).
Qed.

(** A number that is not negative is below the power of ten of the
    length of its text. *)
Lemma str_length_bound n : 0 ≤ n → n < 10 ^ Z.of_nat (length (str n)).
Proof.
  intros Hn. rewrite <- (DecimalZ.of_to n) at 1. unfold str.
  destruct n as [|p|p]; [done| |lia].
  cbn [Z.to_int NilEmpty.string_of_int Z.of_int].
  rewrite length_string_of_uint. apply of_uint_bound.
Qed.

Lemma length_str_large n : 9999 < n → (4 < length (str n))%nat.
Proof.
  intros Hn. pose proof (str_length_bound n ltac:(lia)) as Hb.
  destruct (decide (4 < length (str n))%nat) as [|Hsmall]; [done|].
  assert (10 ^ Z.of_nat (length (str n)) ≤ 10 ^ 4)
    by (apply Z.pow_le_mono_r; lia).
  lia.
Qed.

(** X7. Once the counter has passed 9999 its text no longer fits the
    four columns: an ATOM or TER line of at least 26 characters keeps
    its first 22 characters, gets the whole text after them, and the
    rest of the line, from column 27 on, moves to the right, so the
    line grows by the digits beyond the fourth. *)
Theorem wide_line_grows_past_9999 st line :
  record_line line = true →
  (26 ≤ length line)%nat →
  let n := current_residue_number (step st line).1 in
  9999 < n →
  (4 < length (str n))%nat
  ∧ (step st line).2 = take 22 line ++ str n ++ drop 26 line
  ∧ length (step st line).2 = (length line + (length (str n) - 4))%nat.
Proof.
  intros Hrec Hlen n Hn.
  pose proof (length_str_large n Hn) as Hlarge.
  assert ((step st line).2 = take 22 line ++ str n ++ drop 26 line) as Hout.
  { rewrite step_record by done. fold n. unfold rewrite_field, rjust.
    by replace (4 - length (str n))%nat with 0%nat by lia. }
  split_and!; [done|done|].
  rewrite Hout, !length_app, length_take, length_drop. lia.
Qed.

Lemma wide_line_grows_past_9999_witness :
  record_line (Samples.atom_line "   7") = true
  ∧ (26 ≤ length (Samples.atom_line "   7"))%nat
  ∧ 9999 < current_residue_number
             (step (State (Some (chars "   6")) 9999)
                (Samples.atom_line "   7")).1
  ∧ length (step (State (Some (chars "   6")) 9999)
              (Samples.atom_line "   7")).2
    = (length (Samples.atom_line "   7")
       + (length (str (current_residue_number
                         (step (State (Some (chars "   6")) 9999)
                            (Samples.atom_line "   7")).1)) - 4))%nat.
Proof.
  assert (record_line (Samples.atom_line "   7") = true) as Hrec
    by reflexivity.
  assert (26 ≤ length (Samples.atom_line "   7"))%nat as Hlen
    by (vm_compute; lia).
  assert (9999 < current_residue_number
                   (step (State (Some (chars "   6")) 9999)
                      (Samples.atom_line "   7")).1) as Hn
    by (vm_compute; reflexivity).
  split; [exact Hrec|]. split; [exact Hlen|]. split; [exact Hn|].
  destruct (wide_line_grows_past_9999 (State (Some (chars "   6")) 9999)
              (Samples.atom_line "   7") Hrec Hlen Hn) as (_ & _ & Hgrow).
  exact Hgrow.
Defined.

End RenumberMore.

(** ** More on the window loops *)

Module SegmentMore.
Import Text TextFacts Segment SegmentFacts Views.

Section Script.

Variable os_path_join : text → text → text.
Variable structure : Structure.
Variable file_prefix : text.

Local Abbreviation file_save := (file_save os_path_join file_prefix).
Local Abbreviation window := (window os_path_join file_prefix).
Local Abbreviation write_window := (write_window os_path_join file_prefix).
Local Abbreviation residue_loop := (residue_loop os_path_join file_prefix).
Local Abbreviation chain_loop := (chain_loop os_path_join file_prefix).
Local Abbreviation model_loop := (model_loop os_path_join file_prefix).
Local Abbreviation split_file := (split_file os_path_join structure file_prefix).
Local Abbreviation split_file_fs :=
  (split_file_fs os_path_join structure file_prefix).
Local Abbreviation io_save := (io_save structure).
Local Abbreviation run_saves := (run_saves structure).
Local Abbreviation input_file := (input_file os_path_join file_prefix).

Lemma length_bind_write_window cid starts :
  length (starts ≫= write_window cid) = (8 * length starts)%nat.
Proof.
  induction starts as [|s rest IH]; [done|].
  rewrite bind_cons.
  rewrite length_app, IH, write_window_replicate, length_replicate.
  cbn [length]. lia.
Qed.

(** X8. The windows of a chain depend on the counter the chain is
    entered with. A chain of [L] residues, at least one, entered with
    the counter at [start], not negative, gets the windows
    [start + 1 .. L - 8], each saved 8 times under its own path, and
    leaves the counter at the greater of [start + 1] and [L - 7]. With
    the counter at 0, as for the first chain of a file, these are the
    windows [1 .. L - 8]. *)
Theorem chain_windows_from_counter cid rs start :
  0 ≤ start →
  rs ≠ [] →
  let L := Z.of_nat (length rs) in
  (residue_loop cid L rs start).2
    = seqZ (start + 1) (L - 8 - start) ≫= write_window cid
  ∧ (∀ s, write_window cid s = replicate 8 (window cid s))
  ∧ length (residue_loop cid L rs start).2
    = (8 * Z.to_nat (L - 8 - start))%nat
  ∧ (residue_loop cid L rs start).1 = (start + 1) `max` (L - 7).
Proof.
  intros Hstart Hne L.
  assert (0 < L) as HL by (destruct rs; [done|unfold L; cbn [length]; lia]).
  assert ((residue_loop cid L rs start).2
          = seqZ (start + 1) (L - 8 - start) ≫= write_window cid) as Hevs.
  { rewrite residue_loop_windows. do 2 f_equal. unfold L. lia. }
  split_and!.
  - exact Hevs.
  - intros s. apply write_window_replicate.
  - by rewrite Hevs, length_bind_write_window, length_seqZ.
  - rewrite residue_loop_final. fold L. case_bool_decide; lia.
Qed.


(** *** The files at the end of the script *)

Lemma residue_loop_event_bounds cid len rs start ev :
  ev ∈ (residue_loop cid len rs start).2 →
  start < sel_start ev.2 ≤ (residue_loop cid len rs start).1
  ∧ ev = window cid (sel_start ev.2).
Proof.
  revert start. induction rs as [|r rest IH]; intros start.
  { by intros ?%elem_of_nil. }
  rewrite residue_loop_cons. case_bool_decide as Hbrk; cbn [fst snd].
  { by intros ?%elem_of_nil. }
  pose proof (residue_loop_start_mono os_path_join file_prefix cid len rest
                (start + 1)).
  rewrite elem_of_app, write_window_replicate.
  intros [[-> _]%elem_of_replicate|Hev].
  - cbn. split; [lia|done].
  - destruct (IH _ Hev) as [? ?]. split; [lia|done].
Qed.

Lemma chain_loop_event_bounds cs start ev :
  ev ∈ (chain_loop cs start).2 →
  start < sel_start ev.2 ≤ (chain_loop cs start).1
  ∧ ∃ cid, ev = window cid (sel_start ev.2).
Proof.
  revert start. induction cs as [|c rest IH]; intros start.
  { by intros ?%elem_of_nil. }
  rewrite chain_loop_cons. cbn [fst snd]. rewrite elem_of_app.
  set (r := residue_loop (chain_id c) (Z.of_nat (length (residues c)))
              (residues c) start).
  pose proof (residue_loop_start_mono os_path_join file_prefix (chain_id c)
                (Z.of_nat (length (residues c))) (residues c) start) as H1.
  pose proof (chain_loop_start_mono os_path_join file_prefix rest r.1) as H2.
  fold r in H1. intros [Hev|Hev].
  - apply residue_loop_event_bounds in Hev as [? ?]. fold r in H.
    split; [lia|eauto].
  - destruct (IH _ Hev) as [? ?]. split; [lia|done].
Qed.

Lemma model_loop_event_bounds ms start ev :
  ev ∈ (model_loop ms start).2 →
  start < sel_start ev.2 ≤ (model_loop ms start).1
  ∧ ∃ cid, ev = window cid (sel_start ev.2).
Proof.
  revert start. induction ms as [|m rest IH]; intros start.
  { by intros ?%elem_of_nil. }
  rewrite model_loop_cons. cbn [fst snd]. rewrite elem_of_app.
  set (r := chain_loop (chains m) start).
  pose proof (chain_loop_start_mono os_path_join file_prefix (chains m) start)
    as H1.
  pose proof (model_loop_start_mono os_path_join file_prefix rest r.1) as H2.
  fold r in H1. intros [Hev|Hev].
  - apply chain_loop_event_bounds in Hev as [? ?]. fold r in H.
    split; [lia|done].
  - destruct (IH _ Hev) as [? ?]. split; [lia|done].
Qed.

Lemma chain_loop_start_determines cs start ev ev' :
  ev ∈ (chain_loop cs start).2 → ev' ∈ (chain_loop cs start).2 →
  sel_start ev.2 = sel_start ev'.2 → ev = ev'.
Proof.
  revert start. induction cs as [|c rest IH]; intros start.
  { by intros ?%elem_of_nil. }
  rewrite chain_loop_cons. cbn [snd]. rewrite !elem_of_app.
  intros [H|H] [H'|H'] Heq.
  - apply residue_loop_event_bounds in H as [_ ->].
    apply residue_loop_event_bounds in H' as [_ ->]. by rewrite Heq.
  - apply residue_loop_event_bounds in H as [? _].
    apply chain_loop_event_bounds in H' as [? _]. lia.
  - apply residue_loop_event_bounds in H' as [? _].
    apply chain_loop_event_bounds in H as [? _]. lia.
  - by apply (IH _ H H').
Qed.

Lemma model_loop_start_determines ms start ev ev' :
  ev ∈ (model_loop ms start).2 → ev' ∈ (model_loop ms start).2 →
  sel_start ev.2 = sel_start ev'.2 → ev = ev'.
Proof.
  revert start. induction ms as [|m rest IH]; intros start.
  { by intros ?%elem_of_nil. }
  rewrite model_loop_cons. cbn [snd]. rewrite !elem_of_app.
  intros [H|H] [H'|H'] Heq.
  - by apply (chain_loop_start_determines _ _ _ _ H H').
  - apply chain_loop_event_bounds in H as [? _].
    apply model_loop_event_bounds in H' as [? _]. lia.
  - apply chain_loop_event_bounds in H' as [? _].
    apply model_loop_event_bounds in H as [? _]. lia.
  - by apply (IH _ H H').
Qed.

Lemma run_saves_snoc fs evs ev :
  run_saves fs (evs ++ [ev]) = io_save (run_saves fs evs) ev.
Proof. unfold Segment.run_saves. by rewrite foldl_app. Qed.

Lemma run_saves_lookup_other fs evs path :
  (∀ ev, ev ∈ evs → ev.1 ≠ path) →
  run_saves fs evs !! path = fs !! path.
Proof.
  induction evs as [|ev evs IH] using rev_ind; intros Hne; [done|].
  rewrite run_saves_snoc. unfold Segment.io_save.
  rewrite lookup_insert_ne by (apply Hne, elem_of_app; right; by left).
  apply IH. intros ev' Hev'. apply Hne, elem_of_app. by left.
Qed.

Lemma run_saves_lookup_saved fs evs path select :
  (path, select) ∈ evs →
  (∀ ev, ev ∈ evs → ev.1 = path → ev = (path, select)) →
  run_saves fs evs !! path = Some (save_records structure select).
Proof.
  induction evs as [|ev evs IH] using rev_ind; intros Hin Hsame.
  { by apply elem_of_nil in Hin. }
  rewrite run_saves_snoc. unfold Segment.io_save.
  destruct (decide (ev.1 = path)) as [Heq|Hne].
  - rewrite (Hsame ev) by (done || apply elem_of_app; right; by left).
    cbn [fst snd]. apply lookup_insert_eq.
  - rewrite lookup_insert_ne by done. apply IH.
    + apply elem_of_app in Hin as [Hin|Hin%list_elem_of_singleton]; [done|].
      by subst ev.
    + intros ev' Hev'. apply Hsame, elem_of_app. by left.
Qed.

Lemma file_save_inj start start' :
  Inj (=) (=) (os_path_join directory) →
  file_save start = file_save start' → start = start'.
Proof.
  intros Hinj Heq%Hinj.
  apply app_inv_head, app_inv_head, app_inv_tail in Heq.
  by apply str_inj.
Qed.

Lemma input_file_not_saved start :
  Inj (=) (=) (os_path_join directory) → file_save start ≠ input_file.
Proof. by intros Hinj Heq%Hinj%app_inv_head. Qed.

(** X10. Where [os.path.join] with the directory is one-to-one, no
    window file is overwritten by another window, also across chains
    and models: when the script is done, the path of every save holds
    the records of that save's selection. A path that is not the path
    of a window is left as it was, and so is the input file. *)
Theorem window_files_kept fs :
  Inj (=) (=) (os_path_join directory) →
  (∀ path select,
     (path, select) ∈ split_file →
     split_file_fs fs !! path = Some (save_records structure select))
  ∧ (∀ path,
       (∀ start, path ≠ file_save start) →
       split_file_fs fs !! path = fs !! path)
  ∧ split_file_fs fs !! input_file = fs !! input_file.
Proof.
  intros Hinj.
  assert (∀ path, (∀ start, path ≠ file_save start) →
                  split_file_fs fs !! path = fs !! path) as Hother.
  { intros path Hpath. apply run_saves_lookup_other.
    intros ev (_ & cid & ->)%model_loop_event_bounds. cbn [fst Segment.window].
    intros Heq. by apply (Hpath (sel_start ev.2)). }
  split_and!; [|done|].
  - intros path select Hin. apply run_saves_lookup_saved; [done|].
    intros ev Hev Hpath.
    apply (model_loop_start_determines _ _ _ _ Hev Hin). cbn [snd].
    pose proof Hev as (_ & cid & Hev')%model_loop_event_bounds.
    pose proof Hin as (_ & cid' & Hin')%model_loop_event_bounds.
    apply (f_equal fst) in Hev', Hin'.
    cbn [fst snd Segment.window] in Hev', Hin'.
    apply file_save_inj; [done|]. by rewrite <- Hev', <- Hin'.
  - apply Hother. intros start Heq. by apply (input_file_not_saved start).
Qed.

Lemma residue_loop_short cid rs start :
  0 ≤ start → (length rs < 9)%nat →
  (residue_loop cid (Z.of_nat (length rs)) rs start).2 = [].
Proof.
  intros Hstart Hlen. rewrite residue_loop_windows. by rewrite seqZ_nil by lia.
Qed.

Lemma chain_loop_short cs start :
  0 ≤ start →
  Forall (λ c, (length (residues c) < 9)%nat) cs →
  (chain_loop cs start).2 = [].
Proof.
  intros Hstart Hall. revert start Hstart.
  induction Hall as [|c rest Hc Hrest IH]; intros start Hstart; [done|].
  rewrite chain_loop_cons. cbn [snd].
  rewrite residue_loop_short by done. apply IH.
  pose proof (residue_loop_start_mono os_path_join file_prefix (chain_id c)
                (Z.of_nat (length (residues c))) (residues c) start). lia.
Qed.

Lemma model_loop_short ms start :
  0 ≤ start →
  Forall (λ m, Forall (λ c, (length (residues c) < 9)%nat) (chains m)) ms →
  (model_loop ms start).2 = [].
Proof.
  intros Hstart Hall. revert start Hstart.
  induction Hall as [|m rest Hm Hrest IH]; intros start Hstart; [done|].
  rewrite model_loop_cons. cbn [snd].
  rewrite chain_loop_short by done. apply IH.
  pose proof (chain_loop_start_mono os_path_join file_prefix (chains m) start).
  lia.
Qed.

(** X11. A file in which every chain of every model has fewer than 9
    residues gives rise to no save: the script leaves the files as they
    are. *)
Theorem short_chains_write_nothing fs :
  Forall (λ m, Forall (λ c, (length (residues c) < 9)%nat) (chains m))
    structure →
  split_file = [] ∧ split_file_fs fs = fs.
Proof.
  intros Hall.
  assert (split_file = []) as Hnone
    by (unfold Segment.split_file; by apply model_loop_short).
  split; [done|]. unfold Segment.split_file_fs. by rewrite Hnone.
Qed.

End Script.

(** *** The sample structures *)

Import Samples.

Lemma chain_windows_from_counter_witness :
  0 ≤ 0
  ∧ residues (chain_numbered "A" (seqZ 1 10)) ≠ []
  ∧ (residue_loop posix_join (chars "1abc") (chars "A") 10
       (residues (chain_numbered "A" (seqZ 1 10))) 0).2
    = seqZ 1 2 ≫= write_window posix_join (chars "1abc") (chars "A")
  ∧ (residue_loop posix_join (chars "1abc") (chars "A") 10
       (residues (chain_numbered "A" (seqZ 1 10))) 0).1 = 3.
Proof.
  assert (0 ≤ 0) as H0 by lia.
  assert (residues (chain_numbered "A" (seqZ 1 10)) ≠ []) as Hne
    by discriminate.
  split; [exact H0|]. split; [exact Hne|].
  destruct (chain_windows_from_counter posix_join (chars "1abc") (chars "A")
              (residues (chain_numbered "A" (seqZ 1 10))) 0 H0 Hne)
    as (Hevs & _ & _ & Hfinal).
  split; [exact Hevs|exact Hfinal].
Defined.


Lemma posix_join_directory b :
  posix_join directory b
  = if startswith (chars "/") b then b else directory ++ chars "/" ++ b.
Proof. unfold posix_join. by destruct (startswith (chars "/") b). Qed.

Lemma posix_join_directory_inj : Inj (=) (=) (posix_join directory).
Proof.
  intros b b'. rewrite !posix_join_directory.
  destruct (startswith (chars "/") b) eqn:Hb,
           (startswith (chars "/") b') eqn:Hb'; intros Heq.
  - done.
  - subst b. by vm_compute in Hb.
  - subst b'. by vm_compute in Hb'.
  - by apply app_inv_head, app_inv_head in Heq.
Qed.

Lemma window_files_kept_witness :
  Inj (=) (=) (posix_join directory)
  ∧ split_file_fs posix_join two_chains (chars "1abc") ∅
      !! input_file posix_join (chars "1abc")
    = None.
Proof.
  split; [exact posix_join_directory_inj|].
  destruct (window_files_kept posix_join two_chains (chars "1abc") ∅
              posix_join_directory_inj) as (_ & _ & Hinput).
  exact Hinput.
Defined.

Lemma short_chains_write_nothing_witness :
  Forall (λ m, Forall (λ c, (length (residues c) < 9)%nat) (chains m))
    [ {| model_id := 0; chains := [short_chain] |} ]
  ∧ split_file posix_join [ {| model_id := 0; chains := [short_chain] |} ]
      (chars "1abc") = [].
Proof.
  assert (Forall (λ m, Forall (λ c, (length (residues c) < 9)%nat) (chains m))
            [ {| model_id := 0; chains := [short_chain] |} ]) as H.
  { repeat constructor. }
  split; [exact H|].
  destruct (short_chains_write_nothing posix_join
              [ {| model_id := 0; chains := [short_chain] |} ] (chars "1abc")
              ∅ H) as [Hnone _].
  exact Hnone.
Defined.

End SegmentMore.

(** ** The pair lister *)

Module PairwiseFacts.
Import Text Pairwise.

Lemma length_combinations2 {A} (l : list A) :
  (2 * length (combinations2 l) = length l * (length l - 1))%nat.
Proof.
  induction l as [|x rest IH]; [done|].
  cbn [combinations2 length]. rewrite length_app, length_fmap.
  destruct (length rest) as [|n]; simpl in *; lia.
Qed.

Lemma elem_of_combinations2_cons {A} (x : A) rest a b :
  (a, b) ∈ combinations2 (x :: rest)
  ↔ (a = x ∧ b ∈ rest) ∨ (a, b) ∈ combinations2 rest.
Proof.
  cbn [combinations2]. rewrite elem_of_app, list_elem_of_fmap.
  split; intros [H|H]; auto.
  - destruct H as (y & [= -> ->] & Hy). auto.
  - destruct H as [-> Hb]. left. eauto.
Qed.

Lemma elem_of_combinations2 {A} (l : list A) a b :
  (a, b) ∈ combinations2 l
  ↔ ∃ i j, (i < j)%nat ∧ l !! i = Some a ∧ l !! j = Some b.
Proof.
  induction l as [|x rest IH].
  { split; [by intros ?%elem_of_nil|by intros (i & j & _ & ? & _)]. }
  rewrite elem_of_combinations2_cons, IH. split.
  - intros [[-> (j & Hj)%list_elem_of_lookup]|(i & j & Hij & Hi & Hj)].
    + exists 0%nat, (S j). split_and!; [lia|done|done].
    + exists (S i), (S j). split_and!; [lia|done|done].
  - intros (i & j & Hij & Hi & Hj). destruct j as [|j]; [lia|].
    destruct i as [|i]; simplify_eq/=.
    + left. split; [done|]. apply list_elem_of_lookup. eauto.
    + right. exists i, j. split_and!; [lia|done|done].
Qed.

Lemma NoDup_combinations2 {A} (l : list A) :
  NoDup l → NoDup (combinations2 l).
Proof.
  induction 1 as [|x rest Hx Hrest IH]; [constructor|].
  cbn [combinations2]. apply NoDup_app. split_and!.
  - apply NoDup_fmap_2; [|done]. by intros ?? [= ->].
  - intros [a b] (y & [= -> ->] & Hy)%list_elem_of_fmap
      (i & j & _ & Hi & _)%elem_of_combinations2.
    apply Hx, list_elem_of_lookup. eauto.
  - done.
Qed.

(** X12. For a listing of [n] names the lister prints [n (n - 1) / 2]
    lines, one for every two positions of the listing; a listing of
    fewer than two names prints nothing. *)
Theorem pair_count files :
  (2 * length (pairwise_comparisons files)
   = length files * (length files - 1))%nat
  ∧ ((length files ≤ 1)%nat → pairwise_comparisons files = []).
Proof.
  unfold pairwise_comparisons. rewrite length_fmap.
  split; [apply length_combinations2|].
  intros Hlen. destruct files as [|f [|g rest]]; [done|done|].
  cbn [length] in Hlen. lia.
Qed.

(** X13. The pairs the lister goes through are those of a name with a
    name further down the listing. When the listing has no name twice,
    as a directory listing has not, every pair is of two different
    names, no pair comes twice, and no pair comes in both orders. *)
Theorem pairs_of_listing (files : list text) :
  (∀ file1 file2,
     (file1, file2) ∈ combinations2 files
     ↔ ∃ i j, (i < j)%nat ∧ files !! i = Some file1 ∧ files !! j = Some file2)
  ∧ (∀ line,
       line ∈ pairwise_comparisons files
       ↔ ∃ i j file1 file2,
           (i < j)%nat ∧ files !! i = Some file1 ∧ files !! j = Some file2
           ∧ line = file1 ++ chars " " ++ file2)
  ∧ (NoDup files →
     NoDup (combinations2 files)
     ∧ ∀ file1 file2,
         (file1, file2) ∈ combinations2 files →
         file1 ≠ file2 ∧ (file2, file1) ∉ combinations2 files).
Proof.
  split_and!; [apply elem_of_combinations2| |].
  { intros line. unfold pairwise_comparisons. rewrite list_elem_of_fmap. split.
    - intros ([file1 file2] & -> & (i & j & Hij & Hi & Hj)%elem_of_combinations2).
      by exists i, j, file1, file2.
    - intros (i & j & file1 & file2 & Hij & Hi & Hj & ->).
      exists (file1, file2). split; [done|].
      apply elem_of_combinations2. eauto. }
  intros Hnd. split; [by apply NoDup_combinations2|].
  intros file1 file2 (i & j & Hij & Hi & Hj)%elem_of_combinations2. split.
  - intros ->. pose proof (NoDup_lookup _ _ _ _ Hnd Hi Hj). lia.
  - intros (i' & j' & Hij' & Hi' & Hj')%elem_of_combinations2.
    pose proof (NoDup_lookup _ _ _ _ Hnd Hi Hj').
    pose proof (NoDup_lookup _ _ _ _ Hnd Hj Hi'). lia.
Qed.

Lemma pairs_of_listing_witness :
  NoDup [chars "a.pdb"; chars "b.pdb"; chars "c.pdb"]
  ∧ NoDup (combinations2 [chars "a.pdb"; chars "b.pdb"; chars "c.pdb"]).
Proof.
  assert (NoDup [chars "a.pdb"; chars "b.pdb"; chars "c.pdb"]) as H.
  { apply (bool_decide_unpack _). vm_compute. exact I. }
  split; [exact H|].
  destruct (pairs_of_listing [chars "a.pdb"; chars "b.pdb"; chars "c.pdb"])
    as (_ & _ & Hnd).
  exact (proj1 (Hnd H)).
Defined.

Lemma pair_count_witness :
  (length [chars "a.pdb"] ≤ 1)%nat
  ∧ pairwise_comparisons [chars "a.pdb"] = [].
Proof.
  assert (length [chars "a.pdb"] ≤ 1)%nat as H by (simpl; lia).
  split; [exact H|].
  exact (proj2 (pair_count [chars "a.pdb"]) H).
Defined.

End PairwiseFacts.

(** ** The downloader *)

Module DownloadFacts.
Import Text Download.

(** *** Characters *)

Ltac each_char c :=
  destruct c as [[] [] [] [] [] [] [] []]; vm_compute; try done.

Lemma upper_char_idemp c : upper_char (upper_char c) = upper_char c.
Proof. each_char c. Qed.

Lemma upper_char_not_lower c : is_lower (upper_char c) = false.
Proof. each_char c. Qed.

Lemma upper_char_blank c :
  Renumber.is_blank (upper_char c) = Renumber.is_blank c.
Proof. each_char c. Qed.

Lemma upper_char_comma c : upper_char c = ","%char → c = ","%char.
Proof. each_char c. Qed.

Lemma upper_idemp s : upper (upper s) = upper s.
Proof.
  unfold upper. rewrite <- list_fmap_compose. apply list_fmap_ext.
  intros _ c _. apply upper_char_idemp.
Qed.

Lemma upper_nil s : upper s = [] ↔ s = [].
Proof. unfold upper. apply fmap_nil_inv_iff || (destruct s; naive_solver). Qed.

(** *** [split] and [join] *)

Lemma split_nonempty sep s : split sep s ≠ [].
Proof.
  destruct s as [|c s]; [done|]. simpl. case_bool_decide; [done|].
  by destruct (split sep s).
Qed.

Lemma split_no_sep sep s : sep ∉ s → split sep s = [s].
Proof.
  induction s as [|c s IH]; [done|].
  intros [Hc Hs]%not_elem_of_cons. simpl.
  rewrite bool_decide_eq_false_2 by done. by rewrite IH.
Qed.

Lemma split_app_sep sep a s :
  sep ∉ a → split sep (a ++ sep :: s) = a :: split sep s.
Proof.
  induction a as [|c a IH]; simpl.
  - intros _. by rewrite bool_decide_eq_true_2.
  - intros [Hc Ha]%not_elem_of_cons.
    rewrite bool_decide_eq_false_2 by done. by rewrite IH.
Qed.

Lemma elem_of_split sep s piece : piece ∈ split sep s → sep ∉ piece.
Proof.
  revert piece. induction s as [|c s IH]; intros piece; simpl.
  { intros ->%list_elem_of_singleton. apply not_elem_of_nil. }
  case_bool_decide as Hc.
  - intros [->|H]%elem_of_cons; [apply not_elem_of_nil|by apply IH].
  - destruct (split sep s) as [|p ps] eqn:Hsplit.
    + intros ->%list_elem_of_singleton.
      apply not_elem_of_cons. split; [congruence|apply not_elem_of_nil].
    + intros [->|H]%elem_of_cons.
      * apply not_elem_of_cons. split; [congruence|]. apply IH. by left.
      * apply IH. by right.
Qed.

Lemma split_join sep pieces :
  pieces ≠ [] → Forall (λ piece, sep ∉ piece) pieces →
  split sep (join [sep] pieces) = pieces.
Proof.
  intros Hne Hall. induction Hall as [|piece rest Hpiece Hrest IH]; [done|].
  destruct rest as [|piece' rest].
  - simpl. by apply split_no_sep.
  - change (join [sep] (piece :: piece' :: rest))
      with (piece ++ sep :: join [sep] (piece' :: rest)).
    rewrite split_app_sep by done. by rewrite IH.
Qed.

(** *** [strip] *)

Lemma lstrip_suffix s : ∃ blanks, s = blanks ++ Renumber.lstrip s.
Proof.
  induction s as [|c s [blanks IH]]; [by exists []|]. simpl.
  destruct (Renumber.is_blank c).
  - exists (c :: blanks). simpl. by f_equal.
  - by exists [].
Qed.

Lemma lstrip_head s c rest :
  Renumber.lstrip s = c :: rest → Renumber.is_blank c = false.
Proof.
  induction s as [|d s IH]; [done|]. simpl.
  destruct (Renumber.is_blank d) eqn:Hd; [done|]. by intros [= <- _].
Qed.

Lemma lstrip_unblank c s :
  Renumber.is_blank c = false → Renumber.lstrip (c :: s) = c :: s.
Proof. intros H. simpl. by rewrite H. Qed.

Lemma elem_of_lstrip (x : ascii) s : x ∈ Renumber.lstrip s → x ∈ s.
Proof.
  destruct (lstrip_suffix s) as [blanks Hs]. intros H.
  rewrite Hs. apply elem_of_app. by right.
Qed.

Lemma elem_of_strip (x : ascii) s : x ∈ strip s → x ∈ s.
Proof.
  unfold strip, Renumber.strip.
  rewrite elem_of_reverse. intros H%elem_of_lstrip.
  rewrite elem_of_reverse in H. by apply elem_of_lstrip.
Qed.

(** A text that neither begins nor ends with a blank is left alone. *)
Lemma strip_clean s :
  (∀ c, head s = Some c → Renumber.is_blank c = false) →
  (∀ c, last s = Some c → Renumber.is_blank c = false) →
  strip s = s.
Proof.
  intros Hhead Hlast. unfold strip, Renumber.strip.
  assert (Renumber.lstrip s = s) as ->.
  { destruct s as [|c s]; [done|]. apply lstrip_unblank. by apply Hhead. }
  assert (Renumber.lstrip (reverse s) = reverse s) as ->.
  { destruct (reverse s) as [|c r] eqn:Hrev; [done|].
    apply lstrip_unblank, Hlast.
    rewrite <- (reverse_involutive s), Hrev, reverse_cons. apply last_snoc. }
  apply reverse_involutive.
Qed.

(** What is left after [strip] begins and ends with a character that is
    not a blank. *)
Lemma strip_ends s :
  (∀ c, head (strip s) = Some c → Renumber.is_blank c = false)
  ∧ (∀ c, last (strip s) = Some c → Renumber.is_blank c = false).
Proof.
  unfold strip, Renumber.strip.
  set (t := Renumber.lstrip s).
  destruct (lstrip_suffix (reverse t)) as [blanks Hrev].
  set (u := Renumber.lstrip (reverse t)) in *.
  split.
  - intros c Hc.
    assert (t = reverse u ++ reverse blanks) as Ht
      by (by rewrite <- reverse_app, <- Hrev, reverse_involutive).
    destruct (reverse u) as [|d r] eqn:Hu; [done|]. simplify_eq/=.
    by apply (lstrip_head s c (r ++ reverse blanks)).
  - intros c Hc. destruct u as [|d r] eqn:Hu; [done|].
    rewrite reverse_cons, last_snoc in Hc. simplify_eq.
    by apply (lstrip_head (reverse t) c r).
Qed.

Lemma strip_idemp s : strip (strip s) = strip s.
Proof. destruct (strip_ends s). by apply strip_clean. Qed.

Lemma head_upper s : head (upper s) = upper_char <$> head s.
Proof. by destruct s. Qed.

Lemma last_upper s : last (upper s) = upper_char <$> last s.
Proof. unfold upper. apply fmap_last. Qed.

Lemma strip_upper s : strip s = s → strip (upper s) = upper s.
Proof.
  intros Hs. destruct (strip_ends s) as [Hhead Hlast]. rewrite Hs in Hhead, Hlast.
  apply strip_clean.
  - intros c. rewrite head_upper. destruct (head s) as [d|]; [|done].
    intros [= <-]. rewrite upper_char_blank. by apply Hhead.
  - intros c. rewrite last_upper. destruct (last s) as [d|]; [|done].
    intros [= <-]. rewrite upper_char_blank. by apply Hlast.
Qed.

Lemma comma_upper s : (","%char) ∉ s → (","%char) ∉ upper s.
Proof.
  intros Hs (c & Hc & Hin)%list_elem_of_fmap.
  symmetry in Hc. apply upper_char_comma in Hc. by subst c.
Qed.

(** The normal form of a piece that is kept. *)
Lemma clean_upper_strip piece :
  (","%char) ∉ piece → strip piece ≠ [] → clean_id (upper (strip piece)).
Proof.
  intros Hcomma Hne. unfold clean_id. split_and!.
  - by rewrite upper_nil.
  - apply comma_upper. intros H%elem_of_strip. done.
  - apply strip_upper, strip_idemp.
  - apply upper_idemp.
Qed.

Lemma clean_id_kept id : clean_id id → strip id ≠ [] ∧ upper (strip id) = id.
Proof. intros (Hne & _ & Hstrip & Hupper). by rewrite Hstrip. Qed.

(** *** The list of identifiers *)

Lemma parse_pdb_ids_clean pdb_ids : Forall clean_id (parse_pdb_ids pdb_ids).
Proof.
  unfold parse_pdb_ids. apply Forall_fmap, Forall_forall.
  intros piece [Hne Hin]%list_elem_of_filter. simpl.
  apply clean_upper_strip; [|done]. by apply (elem_of_split _ pdb_ids).
Qed.

Lemma parse_clean_pieces ids :
  Forall clean_id ids →
  (λ pid, upper (strip pid)) <$> filter (λ pid, strip pid ≠ []) ids = ids.
Proof.
  induction 1 as [|id rest Hid Hrest IH]; [done|].
  destruct (clean_id_kept id Hid) as [Hne Hnorm].
  rewrite filter_cons_True by done. cbn [fmap list_fmap].
  rewrite Hnorm. f_equal. exact IH.
Qed.

(** X14. Whatever the argument holds, every identifier that
    [--pdb_ids] yields is clean: it is not empty, holds no comma and no
    lower-case letter, and neither begins nor ends with a blank. The
    identifiers read from an ID file are not empty, have no lower-case
    letter and no blank at either end. *)
Theorem parsed_ids_are_clean (pdb_ids content : text) :
  Forall (λ c, is_ascii c = true) pdb_ids →
  Forall (λ c, is_ascii c = true) content →
  Forall clean_id (parse_pdb_ids pdb_ids)
  ∧ Forall (λ id, id ≠ [] ∧ strip id = id ∧ upper id = id)
      (parse_id_lines content).
Proof.
  intros _ _. split; [apply parse_pdb_ids_clean|].
  unfold parse_id_lines. apply Forall_fmap, Forall_forall.
  intros line [Hne _]%list_elem_of_filter. simpl. split_and!.
  - by rewrite upper_nil.
  - apply strip_upper, strip_idemp.
  - apply upper_idemp.
Qed.

Lemma parsed_ids_are_clean_witness :
  Forall (λ c, is_ascii c = true) (chars " 1ehz, ,2abc ,")
  ∧ Forall (λ c, is_ascii c = true) (chars "1ehz")
  ∧ parse_pdb_ids (chars " 1ehz, ,2abc ,") = [chars "1EHZ"; chars "2ABC"]
  ∧ Forall clean_id (parse_pdb_ids (chars " 1ehz, ,2abc ,")).
Proof.
  assert (Forall (λ c, is_ascii c = true) (chars " 1ehz, ,2abc ,")) as H1
    by (apply (bool_decide_unpack _); vm_compute; exact I).
  assert (Forall (λ c, is_ascii c = true) (chars "1ehz")) as H2
    by (apply (bool_decide_unpack _); vm_compute; exact I).
  split; [exact H1|]. split; [exact H2|]. split; [reflexivity|].
  exact (proj1 (parsed_ids_are_clean _ _ H1 H2)).
Defined.

(** X15. Clean identifiers written with commas between them are read
    back as they are, in order; so reading is idempotent: the
    identifiers an argument yields, joined by commas and read again,
    are the same identifiers. *)
Theorem parse_pdb_ids_round_trip (ids : list text) (pdb_ids : text) :
  Forall (Forall (λ c, is_ascii c = true)) ids →
  Forall clean_id ids →
  parse_pdb_ids (join (chars ",") ids) = ids
  ∧ parse_pdb_ids (join (chars ",") (parse_pdb_ids pdb_ids))
    = parse_pdb_ids pdb_ids.
Proof.
  intros _ Hclean.
  assert (∀ l, Forall clean_id l → parse_pdb_ids (join (chars ",") l) = l)
    as Hround.
  { intros l Hl. unfold parse_pdb_ids.
    destruct l as [|id rest]; [done|].
    rewrite (split_join ","%char) by
      (done || (eapply Forall_impl; [exact Hl|]; by intros ? (_ & ? & _))).
    by apply parse_clean_pieces. }
  split; [by apply Hround|apply Hround, parse_pdb_ids_clean].
Qed.

Lemma parse_pdb_ids_round_trip_witness :
  Forall (Forall (λ c, is_ascii c = true)) [chars "1EHZ"; chars "2ABC"]
  ∧ Forall clean_id [chars "1EHZ"; chars "2ABC"]
  ∧ parse_pdb_ids (join (chars ",") [chars "1EHZ"; chars "2ABC"])
    = [chars "1EHZ"; chars "2ABC"].
Proof.
  assert (Forall (Forall (λ c, is_ascii c = true)) [chars "1EHZ"; chars "2ABC"])
    as H1 by (apply (bool_decide_unpack _); vm_compute; exact I).
  assert (Forall clean_id [chars "1EHZ"; chars "2ABC"]) as H2.
  { repeat constructor; try discriminate; try reflexivity;
      apply (bool_decide_unpack _); vm_compute; exact I. }
  split; [exact H1|]. split; [exact H2|].
  exact (proj1 (parse_pdb_ids_round_trip _ [] H1 H2)).
Defined.

(** *** One download *)

Section World.

Variable World : Type.
Variable os_path_join : text → text → text.
Variable os_makedirs : text → World → option text * World.
Variable requests_get : text → World → get_result * World.
Variable write_binary : text → text → World → option text * World.
Variable read_text : text → World → read_result * World.

Local Abbreviation download_pdb_file :=
  (download_pdb_file World os_path_join os_makedirs requests_get write_binary).
Local Abbreviation download_loop :=
  (download_loop World os_path_join os_makedirs requests_get write_binary).
Local Abbreviation main :=
  (main World os_path_join os_makedirs requests_get write_binary read_text).

(** X16. A download returns [True] exactly when the directory could
    be made, the request was answered with a status outside 400 to 599
    and the file could be written; the world is then the one the
    writing left. When the directory cannot be made no request is sent,
    and when the request fails or is answered with a status from 400 to
    599 nothing is written. A failed download prints one line to
    standard error, a successful one none. *)
Theorem download_outcome pdb_id output_dir w :
  let url := RCSB_DOWNLOAD_URL (upper pdb_id) in
  let file := os_path_join output_dir (upper pdb_id ++ chars ".pdb") in
  let result := download_pdb_file pdb_id output_dir w in
  (result.1.1 = true ↔
     ∃ w1 status_code content w2 w3,
       os_makedirs output_dir w = (None, w1)
       ∧ requests_get url w1 = (Response status_code content, w2)
       ∧ ¬ (400 ≤ status_code < 600)
       ∧ write_binary file content w2 = (None, w3)
       ∧ result.2 = w3)
  ∧ (∀ e w1,
       os_makedirs output_dir w = (Some e, w1) →
       result.1.1 = false ∧ result.2 = w1)
  ∧ (∀ w1 answer w2,
       os_makedirs output_dir w = (None, w1) →
       requests_get url w1 = (answer, w2) →
       (∀ status_code content,
          answer = Response status_code content → 400 ≤ status_code < 600) →
       result.1.1 = false ∧ result.2 = w2)
  ∧ length (filter (λ o : output, o.1 = stderr) result.1.2)
    = if result.1.1 then 0%nat else 1%nat.
Proof.
  intros url file result. subst result. unfold Download.download_pdb_file.
  fold url. fold file.
  destruct (os_makedirs output_dir w) as [[e|] w1] eqn:Hmk;
    [|destruct (requests_get url w1) as [[status content| | |e] w2] eqn:Hget;
      [case_bool_decide as Hstatus;
       [case_bool_decide
       |destruct (write_binary file content w2) as [[e|] w3] eqn:Hwr]
      |..]];
    cbn [fst snd]; (split_and!; [split| | |done]);
    try (intros; by simplify_eq).
  all: try (intros (wa & sc & ct & wb & wc & E1 & E2 & Hgood & E4 & E5);
            injection E1 as <-; try destruct Hgood; congruence).
  all: try (intros wa answer wb E1 E2 Hbad; injection E1 as <-;
            split; [done|congruence]).
  - by intros (wa & sc & ct & wb & wc & E1 & _).
  - intros wa answer wb E1 E2 Hbad. injection E1 as <-. destruct Hstatus.
    rewrite Hget in E2. injection E2 as <- <-. by eapply Hbad.
  - intros _. by exists w1, status, content, w2, w3.
  - intros wa answer wb E1 E2 Hbad. injection E1 as <-. destruct Hstatus.
    rewrite Hget in E2. injection E2 as <- <-. by eapply Hbad.
Qed.

(** X17. The identifier is put in upper case before anything else, so
    identifiers that differ only in the case of their letters are one
    download: the same URL, the same file, the same messages. *)
Theorem download_ignores_case pdb_id output_dir w :
  Forall (λ c, is_ascii c = true) pdb_id →
  download_pdb_file (upper pdb_id) output_dir w
  = download_pdb_file pdb_id output_dir w.
Proof. intros _. unfold Download.download_pdb_file. by rewrite upper_idemp. Qed.

(** *** All downloads *)

Lemma download_loop_cons pdb_id rest output_dir successful failed w :
  let r := download_pdb_file pdb_id output_dir w in
  let successful' := if r.1.1 then successful + 1 else successful in
  let failed' := if r.1.1 then failed else failed ++ [pdb_id] in
  let r' := download_loop rest output_dir successful' failed' r.2 in
  download_loop (pdb_id :: rest) output_dir successful failed w
  = (r'.1.1.1, r'.1.1.2,
     r.1.2 ++ [(stdout, replicate 30 "-"%char)] ++ r'.1.2, r'.2).
Proof.
  cbn [Download.download_loop]. cbv zeta.
  destruct (download_pdb_file pdb_id output_dir w) as [[ok out] w1].
  cbn [fst snd]. destruct ok;
    by destruct (download_loop rest output_dir _ _ w1) as [[[? ?] ?] ?].
Qed.

Lemma download_loop_tally ids output_dir successful failed w :
  let r := download_loop ids output_dir successful failed w in
  ∃ failed',
    r.1.1.2 = failed ++ failed'
    ∧ failed' `sublist_of` ids
    ∧ r.1.1.1 + Z.of_nat (length failed')
      = successful + Z.of_nat (length ids).
Proof.
  revert successful failed w.
  induction ids as [|pdb_id rest IH]; intros successful failed w.
  { exists []. cbn. rewrite app_nil_r. split_and!; [done|done|lia]. }
  rewrite download_loop_cons. cbn [fst snd].
  destruct (download_pdb_file pdb_id output_dir w) as [[[] out] w1];
    cbn [fst snd].
  - destruct (IH (successful + 1) failed w1) as (failed' & Hf & Hsub & Hsum).
    exists failed'. split_and!; [done|by apply sublist_cons|].
    cbn [length]. lia.
  - destruct (IH successful (failed ++ [pdb_id]) w1)
      as (failed' & Hf & Hsub & Hsum).
    exists (pdb_id :: failed'). split_and!.
    + by rewrite Hf, <- app_assoc.
    + by apply sublist_skip.
    + cbn [length]. lia.
Qed.

(** X18. The loop over the identifiers goes through all of them,
    whatever fails on the way: when it ends, the downloads counted as
    successful and the identifiers listed as failed add up to the
    number of identifiers, the failed ones are listed in the order they
    were given, and none is listed exactly when all were successful.
    With [--pdb_ids] given, [main] exits with status 0 or 1, and with 0
    exactly when no identifier is listed as failed; the world it leaves
    is the one the loop leaves. *)
Theorem downloads_tally args w :
  let ids := parse_pdb_ids (default [] (pdb_ids args)) in
  let loop := download_loop ids (output_dir args) 0 [] w in
  loop.1.1.1 + Z.of_nat (length loop.1.1.2) = Z.of_nat (length ids)
  ∧ loop.1.1.2 `sublist_of` ids
  ∧ (loop.1.1.2 = [] ↔ loop.1.1.1 = Z.of_nat (length ids))
  ∧ (given (pdb_ids args) = true →
     ((main args w).1.1 = 0 ∨ (main args w).1.1 = 1)
     ∧ ((main args w).1.1 = 0 ↔ loop.1.1.2 = [])
     ∧ (main args w).2 = loop.2).
Proof.
  intros ids loop.
  destruct (download_loop_tally ids (output_dir args) 0 [] w)
    as (failed' & Hf & Hsub & Hsum).
  fold loop in Hf, Hsum. simpl in Hf. subst failed'.
  split_and!; [lia|done| |].
  - split.
    + intros Hnil. rewrite Hnil in Hsum. simpl in Hsum. lia.
    + intros Hall. destruct (loop.1.1.2); [done|]. cbn [length] in Hsum. lia.
  - intros Hgiven. unfold Download.main. rewrite Hgiven. fold ids.
    subst loop. destruct ids as [|id rest] eqn:Hids.
    { cbn. split_and!; [by left|done|done]. }
    destruct (download_loop (id :: rest) (output_dir args) 0 [] w)
      as [[[successful failed] out] w'].
    cbn [fst snd]. destruct failed; cbn [fst snd];
      split_and!; try done; [by left|by right].
Qed.


End World.

Lemma downloads_tally_witness :
  given (Some (chars "1ehz,2abc")) = true
  ∧ (Download.main (list text) Samples.posix_join Worlds.log_makedirs
       Worlds.log_get_404 Worlds.log_write Worlds.log_read_missing
       {| pdb_ids := Some (chars "1ehz,2abc"); id_file := None;
          output_dir := chars "pdb_downloads" |} []).1.1 = 1.
Proof.
  assert (given (Some (chars "1ehz,2abc")) = true) as H by reflexivity.
  split; [exact H|].
  destruct (downloads_tally (list text) Samples.posix_join Worlds.log_makedirs
              Worlds.log_get_404 Worlds.log_write Worlds.log_read_missing
              {| pdb_ids := Some (chars "1ehz,2abc"); id_file := None;
                 output_dir := chars "pdb_downloads" |} [])
    as (_ & _ & _ & Hmain).
  destruct (Hmain H) as ([H0|H1] & Hiff & _); [|exact H1].
  apply Hiff in H0. vm_compute in H0. discriminate H0.
Defined.


Lemma download_outcome_witness :
  (Download.download_pdb_file (list text) Samples.posix_join
     Worlds.log_makedirs Worlds.log_get_ok Worlds.log_write
     (chars "1ehz") (chars "pdb_downloads") []).1.1 = true
  ∧ (Download.download_pdb_file (list text) Samples.posix_join
       Worlds.log_makedirs Worlds.log_get_404 Worlds.log_write
       (chars "1ehz") (chars "pdb_downloads") []).2
    = [chars "get https://files.rcsb.org/download/1EHZ.pdb";
       chars "makedirs pdb_downloads"].
Proof.
  split.
  - apply (download_outcome (list text) Samples.posix_join
             Worlds.log_makedirs Worlds.log_get_ok Worlds.log_write
             (chars "1ehz") (chars "pdb_downloads") []).
    eexists _, _, _, _, _. split_and!; [reflexivity|reflexivity|lia|
                                          reflexivity|reflexivity].
  - destruct (download_outcome (list text) Samples.posix_join
                Worlds.log_makedirs Worlds.log_get_404 Worlds.log_write
                (chars "1ehz") (chars "pdb_downloads") [])
      as (_ & _ & Hbad & _).
    refine (proj2 (Hbad _ _ _ eq_refl eq_refl _)).
    intros status_code content [= <- _]. lia.
Defined.

Lemma download_ignores_case_witness :
  Forall (λ c, is_ascii c = true) (chars "1ehz")
  ∧ Download.download_pdb_file (list text) Samples.posix_join
      Worlds.log_makedirs Worlds.log_get_ok Worlds.log_write
      (chars "1EHZ") (chars "pdb_downloads") []
    = Download.download_pdb_file (list text) Samples.posix_join
        Worlds.log_makedirs Worlds.log_get_ok Worlds.log_write
        (chars "1ehz") (chars "pdb_downloads") [].
Proof.
  assert (Forall (λ c, is_ascii c = true) (chars "1ehz")) as H
    by (apply (bool_decide_unpack _); vm_compute; exact I).
  split; [exact H|].
  exact (download_ignores_case (list text) Samples.posix_join
           Worlds.log_makedirs Worlds.log_get_ok Worlds.log_write
           (chars "1ehz") (chars "pdb_downloads") [] H).
Defined.

End DownloadFacts.
